(** * Code generators of hexavalent: a shallow embedding

    The repository has three Node.js generators:
    - [src/print/generate.js]: reads the descriptor tables of [text.c] and
      the event table [textevents.in], and emits one [print_event!] line
      per event;
    - the preference generator (unnamed part_001): reads [cfgfiles.c] and
      emits one [pref!] line per preference row;
    - the signature rewriter (unnamed part_000): rewrites every
      [unsafe fn name(...) {] block of [handle_orig.rs] into a forwarding
      wrapper.

    Text is modelled as [String.string] over ASCII characters; the letter
    case functions ([toUpperCase], [toLowerCase]) are modelled on the ASCII
    letters, which is all the tables contain.  A JavaScript exception is an
    [Err] of the small result type [res]; a generator function that may
    throw after some yields is a [gen]: the values it yields and, if it
    throws, the error. *)

From Stdlib Require Import Ascii String DecimalString Lia.
From stdpp Require Import base list gmap strings.

Open Scope string_scope.

(* ------------------------------------------------------------------ *)
(** ** Characters and JavaScript regular-expression classes *)

Definition NL : ascii := ascii_of_nat 10.
Definition CR : ascii := ascii_of_nat 13.
Definition TAB : ascii := ascii_of_nat 9.
Definition DQ : ascii := "034"%char.

(** One-character strings. *)
Definition chr (c : ascii) : string := String c EmptyString.

Definition nl : string := chr NL.
Definition tab : string := chr TAB.
Definition dq : string := chr DQ.

Definition in_range (lo hi : nat) (c : ascii) : bool :=
  Nat.leb lo (nat_of_ascii c) && Nat.leb (nat_of_ascii c) hi.

(** [\w] (no [u] flag): [A-Za-z0-9_]. *)
Definition is_word (c : ascii) : bool :=
  in_range 65 90 c || in_range 97 122 c || in_range 48 57 c
  || Ascii.eqb c "_"%char.

(** [\s] restricted to 8-bit characters: tab, LF, VT, FF, CR, space, NBSP. *)
Definition is_space (c : ascii) : bool :=
  in_range 9 13 c || Ascii.eqb c " "%char || Nat.eqb (nat_of_ascii c) 160.

(** [.] (no [s] flag) matches anything but a line terminator. *)
Definition is_line_term (c : ascii) : bool :=
  Ascii.eqb c NL || Ascii.eqb c CR.

Definition to_upper (c : ascii) : ascii :=
  if in_range 97 122 c then ascii_of_nat (nat_of_ascii c - 32) else c.

Definition to_lower (c : ascii) : ascii :=
  if in_range 65 90 c then ascii_of_nat (nat_of_ascii c + 32) else c.

Fixpoint str_map (f : ascii -> ascii) (s : string) : string :=
  match s with
  | EmptyString => EmptyString
  | String c r => String (f c) (str_map f r)
  end.

(** [String.prototype.toUpperCase] / [toLowerCase]. *)
Definition js_upper (s : string) : string := str_map to_upper s.
Definition js_lower (s : string) : string := str_map to_lower s.

(** Longest prefix of [s] whose characters satisfy [p], and the rest. *)
Fixpoint span (p : ascii -> bool) (s : string) : string * string :=
  match s with
  | EmptyString => (EmptyString, EmptyString)
  | String c r =>
      if p c then let '(a, b) := span p r in (String c a, b)
      else (EmptyString, s)
  end.

Fixpoint str_forallb (p : ascii -> bool) (s : string) : bool :=
  match s with
  | EmptyString => true
  | String c r => p c && str_forallb p r
  end.

Definition is_emptyb (s : string) : bool :=
  match s with EmptyString => true | _ => false end.

(** [s.includes(t)]. *)
Fixpoint includes (t s : string) : bool :=
  String.prefix t s ||
  match s with EmptyString => false | String _ r => includes t r end.

(** [String.prototype.split] with a separator that matches exactly one
    character satisfying [p] ([split('\n')], [split(/_/)], [split(/\W/)]):
    every separator closes a token, so empty tokens are kept. *)
Fixpoint split_by (p : ascii -> bool) (s : string) : list string :=
  match s with
  | EmptyString => [EmptyString]
  | String c r =>
      let rest := split_by p r in
      if p c then EmptyString :: rest
      else match rest with
           | w :: ws => String c w :: ws
           | [] => [chr c]
           end
  end.

Definition split_lines (s : string) : list string := split_by (Ascii.eqb NL) s.

(** A text with no newline: one line of [split('\n')]. *)
Definition nonl (s : string) : bool := str_forallb (fun c => negb (Ascii.eqb NL c)) s.

(** The number of newlines of a text. *)
Fixpoint newlines (s : string) : nat :=
  match s with
  | EmptyString => 0
  | String c r => (if Ascii.eqb NL c then 1 else 0) + newlines r
  end.

(** [`${i}`] for a non-negative integer. *)
Definition nat_str (n : nat) : string := NilEmpty.string_of_uint (Nat.to_uint n).

(* ------------------------------------------------------------------ *)
(** ** Exceptions and generators *)

Inductive js_error :=
| TypeError (what : string)     (** property access on [undefined]/[null] *)
| Error (msg : string).         (** [throw new Error(msg)] *)

Inductive res (A : Type) := Ok (a : A) | Err (e : js_error).
Arguments Ok {A} a.
Arguments Err {A} e.

(** [res] is a monad; stdpp's [x ← m; k] notation sequences it. *)
Global Instance res_ret : MRet res := @Ok.
Global Instance res_mbind : MBind res := fun A B k m =>
  match m with Ok a => k a | Err e => Err e end.

(** [xs.map(f)] where [f] may throw: elements are visited in order. *)
Fixpoint res_map {A B} (f : A -> res B) (xs : list A) : res (list B) :=
  match xs with
  | [] => Ok []
  | x :: xs' => y ← f x; ys ← res_map f xs'; Ok (y :: ys)
  end.

(** Run of a generator function: what it yielded, then how it ended. *)
Inductive gen (A : Type) :=
| GDone (ys : list A)
| GThrow (ys : list A) (e : js_error).
Arguments GDone {A} ys.
Arguments GThrow {A} ys e.

Definition gcons {A} (y : A) (g : gen A) : gen A :=
  match g with
  | GDone ys => GDone (y :: ys)
  | GThrow ys e => GThrow (y :: ys) e
  end.

(** A generator run followed by another one (when the first one ends
    normally). *)
Definition gen_then {A} (g1 g2 : gen A) : gen A :=
  match g1 with
  | GThrow ys e => GThrow ys e
  | GDone ys => match g2 with
                | GDone zs => GDone (ys ++ zs)
                | GThrow zs e => GThrow (ys ++ zs) e
                end
  end.

Definition yields {A} (g : gen A) : list A :=
  match g with GDone ys => ys | GThrow ys _ => ys end.

(** [for (const x of xs) yield f(x);] where [f] may throw. *)
Fixpoint emit_all {A} (f : A -> res string) (xs : list A) : gen string :=
  match xs with
  | [] => GDone []
  | x :: xs' =>
      match f x with
      | Err e => GThrow [] e
      | Ok l => gcons l (emit_all f xs')
      end
  end.

(** [for (const x of g) yield f(x);] over a lazy generator [g]: every value
    [g] yields is turned into a line before [g] resumes; a throw of [g]
    happens after the lines of the values it yielded before. *)
Definition consume {A} (f : A -> res string) (g : gen A) : gen string :=
  match g with
  | GDone ys => emit_all f ys
  | GThrow ys e => gen_then (emit_all f ys) (GThrow [] e)
  end.

(** The [main] of both generators: each line the generator yields is
    written to the output file followed by [\n], then the file is ended.
    An exception of the generator escapes [main]; the model keeps the
    exception and not what the stream had queued before it. *)
Fixpoint written (ls : list string) : string :=
  match ls with
  | [] => EmptyString
  | l :: ls' => l ++ nl ++ written ls'
  end.

Definition write_lines (g : gen string) : res string :=
  match g with
  | GDone ls => Ok (written ls)
  | GThrow _ e => Err e
  end.

(* ------------------------------------------------------------------ *)
(** ** Pieces of regular-expression matching *)

(** [s] with the literal prefix [p] removed. *)
Fixpoint strip_prefix (p s : string) : option string :=
  match p, s with
  | EmptyString, _ => Some s
  | String a p', String b s' => if Ascii.eqb a b then strip_prefix p' s' else None
  | _, _ => None
  end.

(** A greedy [x+] over a class whose successor in the pattern cannot be in
    the class: the whole maximal run, which must not be empty. *)
Definition plus1 (p : ascii -> bool) (s : string) : option (string * string) :=
  let '(a, b) := span p s in if is_emptyb a then None else Some (a, b).

(** Greedy [(.+)] followed by the rest [k] of the pattern: the longest
    non-empty prefix free of line terminators after which [k] matches. *)
Fixpoint dot_plus (k : string -> bool) (r : string) : option string :=
  match r with
  | EmptyString => None
  | String c r' =>
      if is_line_term c then None
      else match dot_plus k r' with
           | Some t => Some (String c t)
           | None => if k r' then Some (chr c) else None
           end
  end.

(** [regex.exec(s)] for a regex without [^]: the first position at which
    the anchored matcher [m] succeeds ([null] is [None]). *)
Fixpoint search {A} (m : string -> option A) (s : string) : option A :=
  match m s with
  | Some a => Some a
  | None => match s with EmptyString => None | String _ r => search m r end
  end.

(* ------------------------------------------------------------------ *)
(** ** Event generator: [src/print/generate.js] *)

Module GenerateEvents.

(** *** [readDescriptions] *)

Record FieldDescriptor := { fd_key : string; fd_fields : list string }.

(** [/const\s+(\w+)\[]/], anchored. *)
Definition key_at (s : string) : option string :=
  r1 ← strip_prefix "const" s;
  '(_, r2) ← plus1 is_space r1;
  '(key, r3) ← plus1 is_word r2;
  _ ← strip_prefix "[]" r3;
  Some key.

(** [/N_\("(.+)"\)/], anchored. *)
Definition wrapped_at (s : string) : option string :=
  r ← strip_prefix ("N_(" ++ dq) s;
  dot_plus (fun rest => String.prefix (dq ++ ")") rest) r.

(** [/\s"(.+)"\s*$/], anchored. *)
Definition bare_at (s : string) : option string :=
  match s with
  | String c r =>
      if is_space c then
        r' ← strip_prefix dq r;
        dot_plus (fun rest => match strip_prefix dq rest with
                              | Some t => str_forallb is_space t
                              | None => false
                              end) r'
      else None
  | EmptyString => None
  end.

(** [(/N_\("(.+)"\)/).exec(line) || (/\s"(.+)"\s*$/).exec(line)]. *)
Definition field_of (line : string) : option string :=
  match search wrapped_at line with
  | Some f => Some f
  | None => search bare_at line
  end.

(** The loop of [readDescriptions] as a machine over the remaining lines:
    [RdDecl] at [i = 0], [RdFields] inside the [while (!lines[i]...)] loop,
    [RdBlank] in [while (lines[i] === '') ++i;] (whose exit re-enters the
    outer loop). *)
Inductive rd_state :=
| RdDecl
| RdFields (key : string) (fields : list string)
| RdBlank.

Definition rd_decl (line : string) : rd_state + js_error :=
  match search key_at line with
  | Some key => inl (RdFields key [])
  | None => inr (TypeError "const [, key] = null")
  end.

Fixpoint rd_loop (st : rd_state) (lines : list string) : gen FieldDescriptor :=
  match lines, st with
  | [], RdFields _ _ => GThrow [] (TypeError "lines[i] is undefined")
  | [], _ => GDone []
  | line :: rest, RdDecl =>
      match rd_decl line with
      | inl st' => rd_loop st' rest
      | inr e => GThrow [] e
      end
  | line :: rest, RdBlank =>
      if is_emptyb line then rd_loop RdBlank rest
      else match rd_decl line with
           | inl st' => rd_loop st' rest
           | inr e => GThrow [] e
           end
  | line :: rest, RdFields key fields =>
      if String.prefix "}" line
      then gcons {| fd_key := key; fd_fields := fields |} (rd_loop RdBlank rest)
      else match field_of line with
           | Some field => rd_loop (RdFields key (fields ++ [field])%list) rest
           | None => GThrow [] (TypeError "const [, field] = null")
           end
  end.

Definition commentLines : nat := 18.

Definition readDescriptions (descriptions : string) : gen FieldDescriptor :=
  rd_loop RdDecl (drop commentLines (split_lines descriptions)).

(** *** [readTextEvents] *)

(** Fields read past the end of [lines] are [undefined] ([None]). *)
Record EventSpec := {
  ev_name : option string;
  ev_signal : option string;
  ev_fields_key : option string;
  ev_format : option string;
  ev_field_count_maybe : option string
}.

Definition event_at (lines : list string) (i : nat) : EventSpec :=
  {| ev_name := lines !! (i + 0);
     ev_signal := lines !! (i + 1);
     ev_fields_key := lines !! (i + 2);
     ev_format := lines !! (i + 3);
     ev_field_count_maybe := lines !! (i + 4) |}.

(** [for (let i = 0; i < lines.length; i += 6) yield ...]; [fuel] bounds
    the number of iterations ([lines.length] is enough). *)
Fixpoint readTextEvents_loop (fuel i : nat) (lines : list string) : list EventSpec :=
  match fuel with
  | O => []
  | S fuel' =>
      if Nat.ltb i (length lines)
      then event_at lines i :: readTextEvents_loop fuel' (i + 6) lines
      else []
  end.

Definition readTextEvents_lines (lines : list string) : list EventSpec :=
  readTextEvents_loop (length lines) 0 lines.

Definition readTextEvents (textEvents : string) : list EventSpec :=
  readTextEvents_lines (split_lines textEvents).

(** *** [nameToCamelCase] *)

(** [first.toUpperCase() + rest.toLowerCase()] with [first = w[0]]; for the
    empty word [w[0]] is [undefined] and the call throws. *)
Definition title_word (w : string) : res string :=
  match w with
  | EmptyString => Err (TypeError "w[0] is undefined")
  | String first rest => Ok (js_upper (chr first) ++ js_lower rest)
  end.

Definition nameToCamelCase (spacedName : string) : res string :=
  words ← res_map title_word (split_by (fun c => negb (is_word c)) spacedName);
  Ok (String.concat EmptyString words).

(** *** [generateRustLines] *)

Definition sentinel_key : string := "pevt_generic_none_help".

(** [field_descriptions]: a prototype-less object used as a map. *)
Definition field_descriptions (ds : list FieldDescriptor) : gmap string (list string) :=
  foldl (fun m d => <[fd_key d := fd_fields d]> m) (<[sentinel_key := []]> ∅) ds.

(** Property key and template text of a possibly [undefined] string. *)
Definition js_text (o : option string) : string :=
  match o with Some s => s | None => "undefined" end.

Definition call_nameToCamelCase (o : option string) : res string :=
  match o with
  | Some s => nameToCamelCase s
  | None => Err (TypeError "undefined.split")
  end.

(** [fields.map((field, i) => `${i}: "${field}"`)]. *)
Definition field_pairs (fields : list string) : list string :=
  imap (fun i field => nat_str i ++ ": " ++ dq ++ field ++ dq) fields.

(** The template literal of line 61, evaluated left to right. *)
Definition event_line (m : gmap string (list string)) (ev : EventSpec) : res string :=
  ident ← call_nameToCamelCase (ev_name ev);
  fields ← match m !! js_text (ev_fields_key ev) with
           | Some fs => Ok fs
           | None => Err (TypeError "field_descriptions[fields_key] is undefined")
           end;
  Ok ("print_event!(" ++ ident ++ ", " ++ dq ++ js_text (ev_name ev) ++ dq ++ ", "
      ++ dq ++ js_text (ev_format ev) ++ dq ++ ", "
      ++ String.concat ", " (field_pairs fields) ++ ");").

(** The map is filled from all descriptors before any event is read. *)
Definition generate_from (dg : gen FieldDescriptor) (evs : list EventSpec) : gen string :=
  match dg with
  | GThrow _ e => GThrow [] e
  | GDone ds => emit_all (event_line (field_descriptions ds)) evs
  end.

Definition generateRustLines (descriptions textEvents : string) : gen string :=
  generate_from (readDescriptions descriptions) (readTextEvents textEvents).

(** *** [main] *)

Definition main (descriptions textEvents : string) : res string :=
  write_lines (generateRustLines descriptions textEvents).

End GenerateEvents.

(* ------------------------------------------------------------------ *)
(** ** Preference generator (unnamed part_001) *)

Module GeneratePrefs.

Record PrefSpec := { pref_name : string; pref_type : string }.

(** [/{"(\w+)",[^,]+, (\w+)/], anchored.  Each greedy run is followed by a
    character outside its class, so it is the maximal run. *)
Definition row_at (s : string) : option (string * string) :=
  r1 ← strip_prefix ("{" ++ dq) s;
  '(name, r2) ← plus1 is_word r1;
  r3 ← strip_prefix (dq ++ ",") r2;
  '(_, r4) ← plus1 (fun c => negb (Ascii.eqb c ",")) r3;
  r5 ← strip_prefix ", " r4;
  '(type, _) ← plus1 is_word r5;
  Some (name, type).

(** [/^\s/.test(line)]. *)
Definition starts_with_space (line : string) : bool :=
  match line with String c _ => is_space c | EmptyString => false end.

(** One iteration of the loop of [readPrefs]: [None] for [continue],
    otherwise the value yielded or the exception of the destructuring of a
    failed match. *)
Definition readPrefs_line (line : string) : option (res PrefSpec) :=
  if is_emptyb line then None
  else if negb (starts_with_space line) then None
  else if includes "{0, 0, 0}" line then None
  else Some (match search row_at line with
             | Some (name, type) => Ok {| pref_name := name; pref_type := type |}
             | None => Err (TypeError "const [, name, type] = null")
             end).

Fixpoint readPrefs_lines (lines : list string) : gen PrefSpec :=
  match lines with
  | [] => GDone []
  | line :: rest =>
      match readPrefs_line line with
      | None => readPrefs_lines rest
      | Some (Ok p) => gcons p (readPrefs_lines rest)
      | Some (Err e) => GThrow [] e
      end
  end.

Definition prefixLines : nat := 2.

Definition readPrefs (descriptions : string) : gen PrefSpec :=
  readPrefs_lines (drop prefixLines (split_lines descriptions)).

Definition title_word (w : string) : res string :=
  match w with
  | EmptyString => Err (TypeError "w[0] is undefined")
  | String first rest => Ok (js_upper (chr first) ++ js_lower rest)
  end.

(** [spacedName.split(/_/)], then the same word mapping as the event
    generator. *)
Definition nameToCamelCase (spacedName : string) : res string :=
  words ← res_map title_word (split_by (Ascii.eqb "_"%char) spacedName);
  Ok (String.concat EmptyString words).

Definition typeToRust (type : string) : res string :=
  if String.eqb type "TYPE_STR" then Ok "String"
  else if String.eqb type "TYPE_INT" then Ok "i32"
  else if String.eqb type "TYPE_BOOL" then Ok "bool"
  else Err (Error ("Unsupported type: " ++ type)).

(** The template literal of line 41, evaluated left to right. *)
Definition pref_line (p : PrefSpec) : res string :=
  ident ← nameToCamelCase (pref_name p);
  ty ← typeToRust (pref_type p);
  Ok ("pref!(" ++ ident ++ ", " ++ dq ++ pref_name p ++ dq ++ ", " ++ ty ++ ");").

Definition generateRustLines (descriptions : string) : gen string :=
  consume pref_line (readPrefs descriptions).

(** [main] *)

Definition main (descriptions : string) : res string :=
  write_lines (generateRustLines descriptions).

End GeneratePrefs.

(* ------------------------------------------------------------------ *)
(** ** Signature rewriter (unnamed part_000) *)

Module HandleRewrite.

(** [str.replace(regex, f)] with a global regex: at each position the
    anchored matcher [m] gives the length of the match and its replacement;
    [skip] counts the characters of the last match still to pass over.
    None of the patterns used matches the empty string. *)
Fixpoint replace_scan (m : string -> option (nat * string)) (skip : nat) (s : string)
  : string :=
  match s with
  | EmptyString => EmptyString
  | String c r =>
      match skip with
      | S k => replace_scan m k r
      | O => match m s with
             | Some (n, rep) => rep ++ replace_scan m (n - 1) r
             | None => String c (replace_scan m 0 r)
             end
      end
  end.

(** [allMatches(str, regex)]: repeated [exec] of a global regex, each
    search starting where the previous match ended; the captures. *)
Fixpoint scan (m : string -> option (nat * string)) (skip : nat) (s : string)
  : list string :=
  match s with
  | EmptyString => []
  | String _ r =>
      match skip with
      | S k => scan m k r
      | O => match m s with
             | Some (n, cap) => cap :: scan m (n - 1) r
             | None => scan m 0 r
             end
      end
  end.

(** [/(\n\s+?)\w+?:/], anchored.  The lazy [\s+?] must stop at a word
    character, so it takes the whole whitespace run; the lazy [\w+?] must
    stop at [:], so it takes the whole word run. *)
Definition depth_at (s : string) : option string :=
  match s with
  | String c r =>
      if Ascii.eqb c NL then
        '(ws, r1) ← plus1 is_space r;
        '(_, r2) ← plus1 is_word r1;
        _ ← strip_prefix ":" r2;
        Some (String c ws)
      else None
  | EmptyString => None
  end.

(** [(/(\n\s+?)\w+?:/g.exec(fullMatch) || [null, ''])[1]]. *)
Definition firstArgDepth (fullMatch : string) : string :=
  match search depth_at fullMatch with Some d => d | None => EmptyString end.

(** [new RegExp(`${firstArgDepth}(\\w+):`, 'g')], anchored: the
    indentation is matched literally. *)
Definition arg_at (depth : string) (s : string) : option (nat * string) :=
  r1 ← strip_prefix depth s;
  '(name, r2) ← plus1 is_word r1;
  _ ← strip_prefix ":" r2;
  Some (String.length depth + String.length name + 1, name).

(** [/ph: \*mut hexchat_plugin,\n?/g] replaced by the empty string. *)
Definition ph_decl : string := "ph: *mut hexchat_plugin,".

Definition ph_at (s : string) : option (nat * string) :=
  r ← strip_prefix ph_decl s;
  match r with
  | String c _ => if Ascii.eqb c NL then Some (String.length ph_decl + 1, EmptyString)
                  else Some (String.length ph_decl, EmptyString)
  | EmptyString => Some (String.length ph_decl, EmptyString)
  end.

Definition args_of (fullMatch : string) : list string :=
  drop 1 (scan (arg_at (firstArgDepth fullMatch)) 0 fullMatch).

(** The replacement callback of [main]. *)
Definition rewrite_block (fullMatch name : string) : string :=
  let args := args_of fullMatch in
  let matchWithoutPhArg := replace_scan ph_at 0 fullMatch in
  matchWithoutPhArg ++ "// Safety: forwarded to caller" ++ nl ++ tab ++ tab ++ tab
  ++ "unsafe { ((*self.handle.as_ptr())." ++ name ++ ")(self.handle.as_ptr(), "
  ++ String.concat "," args ++ ") }" ++ nl ++ tab ++ tab.

(** The lazy [(?:.|\n)+?\{]: at least one character other than CR, up to
    the first [{] after it; the text consumed, the brace included. *)
Fixpoint lazy_to_brace (r : string) : option string :=
  match r with
  | EmptyString => None
  | String c r' =>
      if Ascii.eqb c CR then None
      else match r' with
           | String b _ =>
               if Ascii.eqb b "{"%char then Some (String c (chr b))
               else option_map (String c) (lazy_to_brace r')
           | EmptyString => None
           end
  end.

(** [/unsafe fn (\w+)\((?:.|\n)+?\{/g], anchored, with the callback. *)
Definition unsafe_fn_at (s : string) : option (nat * string) :=
  r1 ← strip_prefix "unsafe fn " s;
  '(name, r2) ← plus1 is_word r1;
  r3 ← strip_prefix "(" r2;
  body ← lazy_to_brace r3;
  let fullMatch := "unsafe fn " ++ name ++ "(" ++ body in
  Some (String.length fullMatch, rewrite_block fullMatch name).

(** [input.replace(/unsafe fn .../g, ...)], the text written to
    [handle.rs]. *)
Definition rewrite_handles (input : string) : string :=
  replace_scan unsafe_fn_at 0 input.

End HandleRewrite.

(** The identifier the spec describes for an event name: the word tokens of
    the name (split on non-word characters), each with its first character
    upper-cased and the rest lower-cased, concatenated. *)
Definition spec_title (w : string) : string :=
  match w with
  | EmptyString => EmptyString
  | String c r => String (to_upper c) (js_lower r)
  end.

Definition spec_identifier (name : string) : string :=
  String.concat EmptyString
    (map spec_title (split_by (fun c => negb (is_word c)) name)).

(* ------------------------------------------------------------------ *)
(** ** Sample inputs and helpers used by the properties *)

Module Samples.

(** Ten lines, two groups of five with no separator. *)
Definition five_five : list string :=
  ["a1"; "a2"; "a3"; "a4"; "a5"; "b1"; "b2"; "b3"; "b4"; "b5"].

Definition join_event : GenerateEvents.EventSpec :=
  {| GenerateEvents.ev_name := Some "Join";
     GenerateEvents.ev_signal := Some "XP_TE_JOIN";
     GenerateEvents.ev_fields_key := Some "pevt_missing_help";
     GenerateEvents.ev_format := Some "joined";
     GenerateEvents.ev_field_count_maybe := Some "4" |}.

Definition demo_decl : string := "static char * const pevt_demo_help[] = {".
Definition demo_line : string := tab ++ "N_(" ++ dq ++ "Nickname" ++ dq ++ "),".

(** The preference row of the spec, without its indentation. *)
Definition auto_reconnect_row : string :=
  "{" ++ dq ++ "auto_reconnect" ++ dq ++ ", 0, TYPE_BOOL, 0}".

(** An indented line of [cfgfiles.c] that is not a preference row. *)
Definition comment_row : string := tab ++ "/* end of table */".

Definition get_info_block : string :=
  "unsafe fn get_info(handle: *mut hexchat_plugin, id: *const c_char) {".

Definition get_info_ph_block : string :=
  "unsafe fn get_info(ph: *mut hexchat_plugin, id: *const c_char) {".

(** A single-line block whose only parameter is the handle. *)
Definition get_prefs_block : string :=
  "unsafe fn get_prefs(ph: *mut hexchat_plugin) -> libc::c_int {".

(** The text the rewriter appends after a block. *)
Definition forwarding (name args : string) : string :=
  "// Safety: forwarded to caller" ++ nl ++ tab ++ tab ++ tab
  ++ "unsafe { ((*self.handle.as_ptr())." ++ name ++ ")(self.handle.as_ptr(), "
  ++ args ++ ") }" ++ nl ++ tab ++ tab.

(** [s] without its first [n] characters. *)
Fixpoint sdrop (n : nat) (s : string) : string :=
  match n, s with
  | O, _ => s
  | S n', String _ r => sdrop n' r
  | S _, EmptyString => EmptyString
  end.

End Samples.

(* ------------------------------------------------------------------ *)
(** ** Shapes of inputs used by the further properties *)

Module Shapes.
Import GenerateEvents Samples.

(** An event record of a lone empty line after the last group of six. *)
Definition blank_event : EventSpec :=
  {| ev_name := Some ""; ev_signal := None; ev_fields_key := None;
     ev_format := None; ev_field_count_maybe := None |}.

(** The lines of one descriptor table: a declaration line naming the key,
    one field line per field (none starting with [}]), a closing line
    starting with [}], then empty lines. *)
Definition descriptor_block (ls : list string) (d : FieldDescriptor) : Prop :=
  exists decl body close blanks,
    ls = (decl :: body ++ close :: blanks)%list /\
    search key_at decl = Some (fd_key d) /\
    Forall2 (fun line f => String.prefix "}" line = false /\ field_of line = Some f)
      body (fd_fields d) /\
    String.prefix "}" close = true /\
    Forall (fun l => l = "") blanks.

(** The state of [readDescriptions] with only newline-free fields read. *)
Definition rd_ok (st : rd_state) : Prop :=
  match st with RdFields _ acc => Forall (fun f => nonl f = true) acc | _ => True end.

(** A preference row of word characters only, name and type non-empty. *)
Definition word_spec (p : GeneratePrefs.PrefSpec) : Prop :=
  is_emptyb (GeneratePrefs.pref_name p) = false /\ str_forallb is_word (GeneratePrefs.pref_name p) = true /\
  is_emptyb (GeneratePrefs.pref_type p) = false /\ str_forallb is_word (GeneratePrefs.pref_type p) = true.

(** A word character other than [_]. *)
Definition alnum (c : ascii) : bool := is_word c && negb (Ascii.eqb c "_"%char).

(** No proper suffix of [p] is a prefix of [p]: two occurrences of [p]
    never overlap. *)
Definition no_border (p : string) : bool :=
  forallb (fun k => negb (String.prefix (sdrop k p) p)) (seq 1 (String.length p - 1)).

(** A character the lazy [(?:.|\n)+?] can pass over before the brace. *)
Definition body_char (c : ascii) : bool :=
  negb (Ascii.eqb c "{"%char) && negb (Ascii.eqb c CR).

(** An [unsafe fn name(body{] header. *)
Definition fn_block (name body : string) : string :=
  "unsafe fn " ++ name ++ "(" ++ body ++ "{".

(** Parameter lines [\n<ind><p>:<t>], one per pair. *)
Fixpoint param_lines (ind : string) (ps : list (string * string)) : string :=
  match ps with
  | [] => EmptyString
  | (p, t) :: ps' => nl ++ ind ++ p ++ ":" ++ t ++ param_lines ind ps'
  end.

(** A parameter: a non-empty word name, a type without newline. *)
Definition param_ok (pt : string * string) : Prop :=
  is_emptyb pt.1 = false /\ str_forallb is_word pt.1 = true /\ nonl pt.2 = true.

(** An indentation: non-empty, spaces other than the newline. *)
Definition indent_ok (ind : string) : Prop :=
  is_emptyb ind = false /\
  str_forallb (fun c => is_space c && negb (Ascii.eqb NL c)) ind = true.

End Shapes.

(* ================================================================== *)
(** * Properties *)

(** ** Generators *)

Lemma gen_then_gcons {A} (y : A) (g g2 : gen A) :
  gen_then (gcons y g) g2 = gcons y (gen_then g g2).
Proof. destruct g, g2; reflexivity. Qed.

(** A line whose computation throws ends the output: the lines of the
    records before it, then the error. *)
Lemma emit_all_app_err {A} (f : A -> res string) (pre post : list A) (x : A) e :
  f x = Err e ->
  emit_all f (pre ++ x :: post) = gen_then (emit_all f pre) (GThrow [] e).
Proof.
  intros Hx. induction pre as [|y pre IH]; simpl.
  - rewrite Hx. reflexivity.
  - destruct (f y) as [l|e']; [|reflexivity].
    rewrite IH, gen_then_gcons. reflexivity.
Qed.

Module EventFacts.
Import GenerateEvents Samples.

(** *** Event table *)

Lemma readTextEvents_loop_lookup (lines : list string) fuel i k :
  length lines <= i + 6 * fuel ->
  readTextEvents_loop fuel i lines !! k =
    if Nat.ltb (i + 6 * k) (length lines)
    then Some (event_at lines (i + 6 * k)) else None.
Proof.
  revert i k. induction fuel as [|fuel IH]; intros i k Hlen;
    cbn [readTextEvents_loop].
  - destruct (Nat.ltb_spec (i + 6 * k) (length lines)); [lia|]. reflexivity.
  - destruct (Nat.ltb_spec i (length lines)) as [Hi|Hi].
    + destruct k as [|k]; cbn [lookup list_lookup].
      * replace (i + 6 * 0) with i by lia.
        destruct (Nat.ltb_spec i (length lines)); [reflexivity|lia].
      * rewrite IH by lia.
        replace (i + 6 + 6 * k) with (i + 6 * S k) by lia. reflexivity.
    + destruct (Nat.ltb_spec (i + 6 * k) (length lines)); [lia|]. reflexivity.
Qed.

(** C1 (as the code reads the table) *)
(** Claim C1, amended: the event table is read with a stride of 6 lines.
    Record [k] exists exactly when [6k] is a line index, and its name,
    signal, fields key, format and field-count hint are lines [6k] to
    [6k+4] ([undefined] past the end); line [6k+5] is never read. *)
Theorem readTextEvents_stride_six (lines : list string) (k : nat) :
  readTextEvents_lines lines !! k =
    if Nat.ltb (6 * k) (length lines)
    then Some {| ev_name := lines !! (6 * k);
                 ev_signal := lines !! (6 * k + 1);
                 ev_fields_key := lines !! (6 * k + 2);
                 ev_format := lines !! (6 * k + 3);
                 ev_field_count_maybe := lines !! (6 * k + 4) |}
    else None.
Proof.
  unfold readTextEvents_lines.
  rewrite (readTextEvents_loop_lookup lines (length lines) 0 k) by lia.
  rewrite Nat.add_0_l. unfold event_at. rewrite Nat.add_0_r. reflexivity.
Qed.

(** Claim C1 fails: with two 5-line groups and no separator, the second
    record does not take its name from line 5 ("b1") but from line 6. *)
Lemma readTextEvents_five_line_groups_counterexample :
  ~ (forall k ev, readTextEvents (String.concat nl five_five) !! k = Some ev ->
                  ev_name ev = five_five !! (5 * k)).
Proof.
  intros H.
  assert (Hev : readTextEvents (String.concat nl five_five) !! 1
                = Some (event_at five_five 6)) by (vm_compute; reflexivity).
  specialize (H 1 _ Hev). vm_compute in H. discriminate H.
Qed.

(** *** Identifiers *)

Lemma res_map_title_word (ws : list string) :
  match res_map title_word ws with
  | Ok vs => vs = map spec_title ws
  | Err _ => In EmptyString ws
  end.
Proof.
  induction ws as [|w ws IH]; simpl; [reflexivity|].
  destruct w as [|c r]; simpl; [now left|].
  destruct (res_map title_word ws) as [vs|e]; simpl.
  - rewrite IH. reflexivity.
  - right. exact IH.
Qed.

(** C6 *)
(** Claim C6: whenever [nameToCamelCase] returns an identifier, it is the
    concatenation of the name's word tokens (split on non-word characters),
    each with its first character upper-cased and the rest lower-cased; it
    returns none only when a token is empty.  "Channel Message" gives
    "ChannelMessage". *)
Theorem nameToCamelCase_title_concat (name : string) :
  match nameToCamelCase name with
  | Ok ident => ident = spec_identifier name
  | Err _ => In EmptyString (split_by (fun c => negb (is_word c)) name)
  end
  /\ nameToCamelCase "Channel Message" = Ok "ChannelMessage".
Proof.
  split; [|reflexivity].
  unfold nameToCamelCase, spec_identifier.
  pose proof (res_map_title_word (split_by (fun c => negb (is_word c)) name)) as H.
  destruct (res_map title_word _) as [vs|e]; simpl.
  - rewrite H. reflexivity.
  - exact H.
Qed.

Lemma res_map_title_word_empty (ws : list string) :
  In EmptyString ws -> exists e, res_map title_word ws = Err e.
Proof.
  induction ws as [|w ws IH]; simpl; [tauto|].
  intros [Hw|Hin]; [subst w; simpl; eauto|].
  destruct (title_word w); simpl; [|eauto].
  destruct (IH Hin) as [e ->]. simpl. eauto.
Qed.

(** C10 *)
(** Claim C10: when splitting an event name on single non-word characters
    gives an empty token, [nameToCamelCase] throws; the line of any event
    with that name is not produced, and the output stops there: only the
    lines of the events before it precede the error. *)
Theorem nameToCamelCase_empty_token_throws (name : string)
  (Hempty : In EmptyString (split_by (fun c => negb (is_word c)) name)) :
  (exists e, nameToCamelCase name = Err e) /\
  forall (m : gmap string (list string)) (pre post : list EventSpec) (ev : EventSpec),
    ev_name ev = Some name ->
    exists e, event_line m ev = Err e /\
      emit_all (event_line m) (pre ++ ev :: post)
      = gen_then (emit_all (event_line m) pre) (GThrow [] e).
Proof.
  assert (Hn : exists e, nameToCamelCase name = Err e).
  { unfold nameToCamelCase.
    destruct (res_map_title_word_empty _ Hempty) as [e He].
    rewrite He. simpl. eauto. }
  split; [exact Hn|].
  intros m pre post ev Hname.
  destruct Hn as [e He].
  assert (Hl : event_line m ev = Err e).
  { unfold event_line. rewrite Hname. simpl. rewrite He. reflexivity. }
  exists e. split; [exact Hl|]. apply emit_all_app_err. exact Hl.
Qed.

Lemma nameToCamelCase_empty_token_throws_witness :
  In EmptyString (split_by (fun c => negb (is_word c)) "Channel  Message") /\
  (exists e, nameToCamelCase "Channel  Message" = Err e).
Proof.
  assert (H : In EmptyString (split_by (fun c => negb (is_word c)) "Channel  Message"))
    by (vm_compute; tauto).
  split; [exact H|].
  exact (proj1 (nameToCamelCase_empty_token_throws "Channel  Message" H)).
Defined.

(** *** Descriptor table and the join *)

Lemma field_descriptions_absent (ds : list FieldDescriptor) (k : string) :
  Forall (fun d => fd_key d <> k) ds ->
  forall m : gmap string (list string), m !! k = None ->
  foldl (fun m d => <[fd_key d := fd_fields d]> m) m ds !! k = None.
Proof.
  induction 1 as [|d ds Hd _ IH]; intros m Hm; simpl; [exact Hm|].
  apply IH. rewrite lookup_insert_ne by congruence. exact Hm.
Qed.

Lemma field_descriptions_kept (ds : list FieldDescriptor) (k : string) (v : list string) :
  Forall (fun d => fd_key d <> k) ds ->
  forall m : gmap string (list string), m !! k = Some v ->
  foldl (fun m d => <[fd_key d := fd_fields d]> m) m ds !! k = Some v.
Proof.
  induction 1 as [|d ds Hd _ IH]; intros m Hm; simpl; [exact Hm|].
  apply IH. rewrite lookup_insert_ne by congruence. exact Hm.
Qed.

(** C4 *)
(** Claim C4: for an event whose fields key no descriptor defines, the
    line throws, no line is produced for the event and the output stops
    there (only the lines of the events before it precede the error);
    the reserved key [pevt_generic_none_help] instead resolves to the empty
    list and gives a line with no [index: "label"] pair. *)
Theorem event_unresolved_key_fatal (ds : list FieldDescriptor)
  (pre post : list EventSpec) (ev : EventSpec)
  (Hnone : Forall (fun d => fd_key d <> js_text (ev_fields_key ev)) ds) :
  (js_text (ev_fields_key ev) <> sentinel_key ->
     exists e, event_line (field_descriptions ds) ev = Err e /\
       generate_from (GDone ds) (pre ++ ev :: post)
       = gen_then (emit_all (event_line (field_descriptions ds)) pre) (GThrow [] e)) /\
  (js_text (ev_fields_key ev) = sentinel_key ->
     forall ident, call_nameToCamelCase (ev_name ev) = Ok ident ->
     event_line (field_descriptions ds) ev
     = Ok ("print_event!(" ++ ident ++ ", " ++ dq ++ js_text (ev_name ev) ++ dq ++ ", "
           ++ dq ++ js_text (ev_format ev) ++ dq ++ ", " ++ ");")).
Proof.
  split.
  - intros Hk.
    assert (Hl : exists e, event_line (field_descriptions ds) ev = Err e).
    { unfold event_line.
      destruct (call_nameToCamelCase (ev_name ev)) as [ident|e]; simpl; [|eauto].
      unfold field_descriptions.
      rewrite (field_descriptions_absent ds _ Hnone); [simpl; eauto|].
      rewrite lookup_insert_ne by congruence. apply lookup_empty. }
    destruct Hl as [e He]. exists e. split; [exact He|].
    unfold generate_from. apply emit_all_app_err. exact He.
  - intros Hk ident Hid. unfold event_line. rewrite Hid. simpl.
    unfold field_descriptions.
    rewrite (field_descriptions_kept ds _ []); [reflexivity|exact Hnone|].
    rewrite Hk. apply lookup_insert_eq.
Qed.

Lemma event_unresolved_key_fatal_witness :
  exists e, event_line (field_descriptions []) join_event = Err e /\
    generate_from (GDone []) ([] ++ join_event :: [])
    = gen_then (emit_all (event_line (field_descriptions [])) []) (GThrow [] e).
Proof.
  refine (proj1 (event_unresolved_key_fatal [] [] [] join_event (List.Forall_nil _)) _).
  vm_compute. discriminate.
Defined.

Lemma rd_loop_fields (key : string) (body fields : list string) (close : string)
  (rest : list string) :
  Forall2 (fun line f => String.prefix "}" line = false /\ field_of line = Some f)
    body fields ->
  String.prefix "}" close = true ->
  forall acc,
  rd_loop (RdFields key acc) (body ++ close :: rest)
  = gcons {| fd_key := key; fd_fields := acc ++ fields |} (rd_loop RdBlank rest).
Proof.
  intros Hbody Hclose.
  induction Hbody as [|line f body fields [Hl Hf] _ IH]; intros acc; simpl.
  - rewrite Hclose, app_nil_r. reflexivity.
  - rewrite Hl, Hf, IH, <- app_assoc. reflexivity.
Qed.

(** C7 *)
(** Claim C7: a descriptor block yields its fields in declaration order,
    and the emitted event line pairs the [j]-th field of the resolved
    descriptor with the index [j], starting at 0. *)
Theorem descriptor_fields_in_order (st : rd_state) (decl key : string)
  (body fields : list string) (close : string) (rest : list string)
  (Hst : st = RdDecl \/ st = RdBlank)
  (Hdecl : search key_at decl = Some key)
  (Hbody : Forall2 (fun line f => String.prefix "}" line = false /\ field_of line = Some f)
             body fields)
  (Hclose : String.prefix "}" close = true) :
  rd_loop st (decl :: body ++ close :: rest)
  = gcons {| fd_key := key; fd_fields := fields |} (rd_loop RdBlank rest) /\
  forall (m : gmap string (list string)) (ev : EventSpec) (ident : string),
    m !! js_text (ev_fields_key ev) = Some fields ->
    call_nameToCamelCase (ev_name ev) = Ok ident ->
    exists pairs,
      event_line m ev
      = Ok ("print_event!(" ++ ident ++ ", " ++ dq ++ js_text (ev_name ev) ++ dq ++ ", "
            ++ dq ++ js_text (ev_format ev) ++ dq ++ ", " ++ String.concat ", " pairs ++ ");")
      /\ length pairs = length fields
      /\ forall j f, fields !! j = Some f ->
           pairs !! j = Some (nat_str j ++ ": " ++ dq ++ f ++ dq).
Proof.
  split.
  - assert (Hd : rd_decl decl = inl (RdFields key [])) by (unfold rd_decl; rewrite Hdecl; reflexivity).
    destruct Hst as [-> | ->]; simpl.
    + rewrite Hd. apply (rd_loop_fields key body fields close rest Hbody Hclose []).
    + destruct decl as [|c r]; [discriminate Hdecl|]. simpl.
      rewrite Hd. apply (rd_loop_fields key body fields close rest Hbody Hclose []).
  - intros m ev ident Hm Hid. exists (field_pairs fields).
    split; [unfold event_line; rewrite Hid; simpl; rewrite Hm; reflexivity|].
    split; [apply length_imap|].
    intros j f Hj. unfold field_pairs. rewrite list_lookup_imap, Hj. reflexivity.
Qed.

Lemma descriptor_fields_in_order_witness :
  rd_loop RdDecl (demo_decl :: [demo_line; tab ++ "N_(" ++ dq ++ "Reason" ++ dq ++ "),"]
                    ++ "};" :: [])
  = gcons {| fd_key := "pevt_demo_help"; fd_fields := ["Nickname"; "Reason"] |}
      (rd_loop RdBlank []) /\
  exists pairs,
    event_line (field_descriptions [{| fd_key := "pevt_demo_help";
                                       fd_fields := ["Nickname"; "Reason"] |}])
      {| ev_name := Some "Part"; ev_signal := None; ev_fields_key := Some "pevt_demo_help";
         ev_format := Some "left"; ev_field_count_maybe := None |}
    = Ok ("print_event!(" ++ "Part" ++ ", " ++ dq ++ "Part" ++ dq ++ ", "
          ++ dq ++ "left" ++ dq ++ ", "
          ++ String.concat ", " pairs ++ ");") /\
    length pairs = 2 /\
    pairs !! 0 = Some ("0: " ++ dq ++ "Nickname" ++ dq) /\
    pairs !! 1 = Some ("1: " ++ dq ++ "Reason" ++ dq).
Proof.
  assert (Hdecl : search key_at demo_decl = Some "pevt_demo_help") by (vm_compute; reflexivity).
  assert (Hbody : Forall2 (fun line f => String.prefix "}" line = false /\ field_of line = Some f)
                    [demo_line; tab ++ "N_(" ++ dq ++ "Reason" ++ dq ++ "),"]
                    ["Nickname"; "Reason"]).
  { constructor; [vm_compute; split; reflexivity|].
    constructor; [vm_compute; split; reflexivity|constructor]. }
  assert (Hclose : String.prefix "}" "};" = true) by reflexivity.
  destruct (descriptor_fields_in_order RdDecl demo_decl "pevt_demo_help" _ _ "};" []
              (or_introl eq_refl) Hdecl Hbody Hclose) as [Hrd Hev].
  split; [exact Hrd|].
  assert (Hm : field_descriptions [{| fd_key := "pevt_demo_help";
                                      fd_fields := ["Nickname"; "Reason"] |}]
                 !! "pevt_demo_help" = Some ["Nickname"; "Reason"]) by (vm_compute; reflexivity).
  assert (Hid : call_nameToCamelCase (Some "Part") = Ok "Part") by (vm_compute; reflexivity).
  destruct (Hev _ {| ev_name := Some "Part"; ev_signal := None;
                     ev_fields_key := Some "pevt_demo_help";
                     ev_format := Some "left"; ev_field_count_maybe := None |} "Part" Hm Hid)
    as (pairs & He & Hl & Hp).
  exists pairs. split; [exact He|]. split; [exact Hl|].
  split; [rewrite (Hp 0 "Nickname") by reflexivity|rewrite (Hp 1 "Reason") by reflexivity];
    reflexivity.
Defined.

End EventFacts.

(** ** Text *)

Lemma consume_err {A} (f : A -> res string) (g : gen A) (pre post : list A) (x : A) e :
  yields g = (pre ++ x :: post)%list -> f x = Err e ->
  consume f g = gen_then (emit_all f pre) (GThrow [] e).
Proof.
  intros Hy Hx. destruct g as [ys|ys e']; simpl in Hy; subst ys; simpl.
  - apply emit_all_app_err. exact Hx.
  - rewrite (emit_all_app_err f pre post x e Hx).
    destruct (emit_all f pre); reflexivity.
Qed.

Lemma str_forallb_app (p : ascii -> bool) (a b : string) :
  str_forallb p (a ++ b) = str_forallb p a && str_forallb p b.
Proof.
  induction a as [|c a IH]; simpl; [reflexivity|].
  rewrite IH. destruct (p c); reflexivity.
Qed.

Lemma split_by_none (p : ascii -> bool) (a : string) :
  str_forallb (fun c => negb (p c)) a = true -> split_by p a = [a].
Proof.
  induction a as [|c a IH]; simpl; [reflexivity|].
  destruct (p c); simpl; [discriminate|].
  intros H. rewrite (IH H). reflexivity.
Qed.

Lemma split_by_app_sep (p : ascii -> bool) (a b : string) (c : ascii) :
  str_forallb (fun c => negb (p c)) a = true -> p c = true ->
  split_by p (a ++ String c b) = a :: split_by p b.
Proof.
  intros Ha Hc. induction a as [|x a IH]; simpl in *.
  - rewrite Hc. reflexivity.
  - destruct (p x); simpl in Ha; [discriminate|].
    rewrite (IH Ha). reflexivity.
Qed.

(** A matcher that fails at every space does not see leading spaces. *)
Lemma search_skip_spaces {A} (m : string -> option A) (ind s : string) :
  (forall c r, is_space c = true -> m (String c r) = None) ->
  str_forallb is_space ind = true ->
  search m (ind ++ s) = search m s.
Proof.
  intros Hm. induction ind as [|c ind IH]; simpl; [reflexivity|].
  intros H. apply andb_prop in H as [Hc Hr].
  rewrite Hm by exact Hc. apply IH, Hr.
Qed.

Lemma includes_skip_spaces (t ind s : string) :
  (forall c r, is_space c = true -> String.prefix t (String c r) = false) ->
  str_forallb is_space ind = true ->
  includes t (ind ++ s) = includes t s.
Proof.
  intros Ht. induction ind as [|c ind IH]; intros H; [reflexivity|].
  simpl in H. apply andb_prop in H as [Hc Hr].
  change (String c ind ++ s) with (String c (ind ++ s)).
  transitivity (includes t (ind ++ s)); [|apply IH, Hr].
  change (includes t (String c (ind ++ s)))
    with (String.prefix t (String c (ind ++ s)) || includes t (ind ++ s)).
  rewrite Ht by exact Hc. reflexivity.
Qed.

Lemma space_not_brace (c : ascii) : is_space c = true -> Ascii.eqb "{"%char c = false.
Proof.
  intros H. destruct (Ascii.eqb_spec "{"%char c) as [<-|]; [discriminate H|reflexivity].
Qed.

Module PrefFacts.
Import GeneratePrefs Samples.

(** C3 (as the code handles the row) *)
(** Claim C3, amended: a preference line that is non-empty, indented, not
    the sentinel row and not matched by the row pattern makes [readPrefs]
    throw (the failed match is destructured): the run yields what the lines
    before it yield, then stops with a [TypeError]; nothing is yielded for
    that line or any later one. *)
Theorem readPrefs_unmatched_row_throws (pre post : list string) (line : string)
  (Hne : is_emptyb line = false) (Hsp : starts_with_space line = true)
  (Hsent : includes "{0, 0, 0}" line = false) (Hrow : search row_at line = None) :
  readPrefs_lines (pre ++ line :: post)
  = gen_then (readPrefs_lines pre) (GThrow [] (TypeError "const [, name, type] = null")).
Proof.
  assert (Hl : readPrefs_line line = Some (Err (TypeError "const [, name, type] = null"))).
  { unfold readPrefs_line. rewrite Hne, Hsp, Hsent, Hrow. reflexivity. }
  induction pre as [|l pre IH]; simpl.
  - rewrite Hl. reflexivity.
  - destruct (readPrefs_line l) as [[p|e]|]; simpl.
    + rewrite IH, gen_then_gcons. reflexivity.
    + reflexivity.
    + exact IH.
Qed.

Lemma readPrefs_unmatched_row_throws_witness :
  readPrefs_lines ([] ++ comment_row :: [])
  = gen_then (readPrefs_lines []) (GThrow [] (TypeError "const [, name, type] = null")).
Proof.
  apply readPrefs_unmatched_row_throws; vm_compute; reflexivity.
Defined.

(** Claim C3 fails: an indented comment line of the table is not skipped,
    it stops the run with an error. *)
Lemma readPrefs_unmatched_row_counterexample :
  is_emptyb comment_row = false /\ starts_with_space comment_row = true /\
  includes "{0, 0, 0}" comment_row = false /\ search row_at comment_row = None /\
  readPrefs ("p1" ++ nl ++ "p2" ++ nl ++ comment_row)
  = GThrow [] (TypeError "const [, name, type] = null").
Proof. vm_compute. repeat split. Qed.

(** C5 *)
(** Claim C5: [typeToRust] maps TYPE_STR, TYPE_INT and TYPE_BOOL to
    String, i32 and bool and throws "Unsupported type" for any other token;
    a row with such a token gets no line and the run stops there, after the
    lines of the rows before it. *)
Theorem typeToRust_closed (t : string)
  (Hs : t <> "TYPE_STR") (Hi : t <> "TYPE_INT") (Hb : t <> "TYPE_BOOL") :
  typeToRust "TYPE_STR" = Ok "String" /\ typeToRust "TYPE_INT" = Ok "i32" /\
  typeToRust "TYPE_BOOL" = Ok "bool" /\
  typeToRust t = Err (Error ("Unsupported type: " ++ t)) /\
  forall (p : PrefSpec) (g : gen PrefSpec) (pre post : list PrefSpec),
    pref_type p = t -> yields g = (pre ++ p :: post)%list ->
    exists e, pref_line p = Err e /\
      (forall ident, nameToCamelCase (pref_name p) = Ok ident ->
                     e = Error ("Unsupported type: " ++ t)) /\
      consume pref_line g = gen_then (emit_all pref_line pre) (GThrow [] e).
Proof.
  assert (Ht : typeToRust t = Err (Error ("Unsupported type: " ++ t))).
  { unfold typeToRust.
    apply String.eqb_neq in Hs, Hi, Hb. rewrite Hs, Hi, Hb. reflexivity. }
  do 4 (split; [first [reflexivity | exact Ht]|]).
  intros p g pre post Hp Hy.
  destruct (nameToCamelCase (pref_name p)) as [ident|e] eqn:Hn.
  - exists (Error ("Unsupported type: " ++ t)).
    assert (Hl : pref_line p = Err (Error ("Unsupported type: " ++ t))).
    { unfold pref_line. rewrite Hn. simpl. rewrite Hp, Ht. reflexivity. }
    split; [exact Hl|]. split; [intros ? ?; reflexivity|].
    apply (consume_err _ _ pre post p); assumption.
  - exists e.
    assert (Hl : pref_line p = Err e) by (unfold pref_line; rewrite Hn; reflexivity).
    split; [exact Hl|]. split; [intros ident Hid; discriminate Hid|].
    apply (consume_err _ _ pre post p); assumption.
Qed.

Lemma typeToRust_closed_witness :
  typeToRust "TYPE_FLOAT" = Err (Error ("Unsupported type: " ++ "TYPE_FLOAT")).
Proof.
  refine (proj1 (proj2 (proj2 (proj2 (typeToRust_closed "TYPE_FLOAT" _ _ _)))));
    discriminate.
Defined.

(** C8 *)
(** Claim C8: after the two prefix lines, the row
    [{"auto_reconnect", 0, TYPE_BOOL, 0}] with any indentation yields
    PrefSpec {auto_reconnect, TYPE_BOOL} and the line
    [pref!(AutoReconnect, "auto_reconnect", bool);]. *)
Theorem auto_reconnect_pref (p1 p2 ind : string)
  (Hp1 : str_forallb (fun c => negb (Ascii.eqb NL c)) p1 = true)
  (Hp2 : str_forallb (fun c => negb (Ascii.eqb NL c)) p2 = true)
  (Hind : is_emptyb ind = false) (Hsp : str_forallb is_space ind = true)
  (Hnl : str_forallb (fun c => negb (Ascii.eqb NL c)) ind = true) :
  readPrefs (p1 ++ nl ++ p2 ++ nl ++ ind ++ auto_reconnect_row)
  = GDone [{| pref_name := "auto_reconnect"; pref_type := "TYPE_BOOL" |}] /\
  generateRustLines (p1 ++ nl ++ p2 ++ nl ++ ind ++ auto_reconnect_row)
  = GDone ["pref!(AutoReconnect, " ++ dq ++ "auto_reconnect" ++ dq ++ ", bool);"].
Proof.
  assert (Hlines : split_lines (p1 ++ nl ++ p2 ++ nl ++ ind ++ auto_reconnect_row)
                   = [p1; p2; ind ++ auto_reconnect_row]).
  { unfold split_lines.
    change (p1 ++ nl ++ p2 ++ nl ++ ind ++ auto_reconnect_row)
      with (p1 ++ String NL (p2 ++ String NL (ind ++ auto_reconnect_row))).
    rewrite split_by_app_sep by (exact Hp1 || apply Ascii.eqb_refl).
    rewrite split_by_app_sep by (exact Hp2 || apply Ascii.eqb_refl).
    rewrite split_by_none; [reflexivity|].
    rewrite str_forallb_app, Hnl. reflexivity. }
  assert (Hread : readPrefs (p1 ++ nl ++ p2 ++ nl ++ ind ++ auto_reconnect_row)
                  = GDone [{| pref_name := "auto_reconnect"; pref_type := "TYPE_BOOL" |}]).
  { unfold readPrefs. rewrite Hlines. unfold prefixLines.
    cbn [drop readPrefs_lines]. unfold readPrefs_line.
    rewrite (includes_skip_spaces _ ind); cycle 1.
    { intros c' r Hc'. cbn [String.prefix].
      destruct (ascii_dec "{"%char c') as [<-|]; [discriminate Hc'|reflexivity]. }
    { exact Hsp. }
    rewrite (search_skip_spaces row_at ind); cycle 1.
    { intros c' r Hc'. unfold row_at, dq, chr. cbv [String.append]; cbn [strip_prefix].
      rewrite (space_not_brace c' Hc'). reflexivity. }
    { exact Hsp. }
    destruct ind as [|c ind']; [discriminate Hind|].
    simpl in Hsp. apply andb_prop in Hsp as [Hc _].
    cbv [String.append is_emptyb starts_with_space]. rewrite Hc.
    vm_compute. reflexivity. }
  split; [exact Hread|].
  unfold generateRustLines. rewrite Hread. vm_compute. reflexivity.
Qed.

Lemma auto_reconnect_pref_witness :
  readPrefs ("p1" ++ nl ++ "p2" ++ nl ++ tab ++ auto_reconnect_row)
  = GDone [{| pref_name := "auto_reconnect"; pref_type := "TYPE_BOOL" |}].
Proof.
  refine (proj1 (auto_reconnect_pref "p1" "p2" tab _ _ _ _ _)); reflexivity.
Defined.

End PrefFacts.

Lemma append_cons (c : ascii) (x y : string) : String c x ++ y = String c (x ++ y).
Proof. reflexivity. Qed.

Lemma strip_prefix_app (p s r : string) : strip_prefix p s = Some r -> s = p ++ r.
Proof.
  revert s. induction p as [|a p IH]; intros s H; simpl in H.
  - injection H as <-. reflexivity.
  - destruct s as [|b s]; [discriminate|].
    destruct (Ascii.eqb_spec a b) as [<-|]; [|discriminate].
    rewrite append_cons, <- (IH s H). reflexivity.
Qed.

Lemma span_app (p : ascii -> bool) (s a b : string) : span p s = (a, b) -> s = a ++ b.
Proof.
  revert a b. induction s as [|c s IH]; intros a b H; simpl in H.
  - injection H as <- <-. reflexivity.
  - destruct (p c).
    + destruct (span p s) as [a' b'] eqn:E. injection H as <- <-.
      rewrite append_cons, <- (IH a' b' eq_refl). reflexivity.
    + injection H as <- <-. reflexivity.
Qed.

Lemma plus1_app (p : ascii -> bool) (s a b : string) : plus1 p s = Some (a, b) -> s = a ++ b.
Proof.
  unfold plus1. destruct (span p s) as [a' b'] eqn:E.
  destruct (is_emptyb a'); [discriminate|]. intros [= <- <-].
  apply (span_app p s a' b' E).
Qed.

Module RewriteFacts.
Import HandleRewrite Samples.

(** C9 *)
(** Claim C9, missed by the code: the handle-only block
    [unsafe fn get_prefs(ph: *mut hexchat_plugin) -> libc::c_int {] is
    written on one line, so no parameter line is indented and the argument
    pattern falls back to [(\w+):] over the whole block.  Besides the
    handle's [ph:] it matches the [libc:] of the return type [libc::c_int],
    and [libc] is forwarded after the handle pointer. *)
Theorem handle_only_path_type_forwards_libc :
  args_of get_prefs_block = ["libc"] /\
  rewrite_handles get_prefs_block = get_prefs_block ++ forwarding "get_prefs" "libc".
Proof. split; vm_compute; reflexivity. Qed.

(** C2 (as the code rewrites the block) *)
(** Claim C2, amended: the block
    [unsafe fn get_info(handle: *mut hexchat_plugin, id: *const c_char) {]
    is kept unchanged, since the removal pattern only matches a handle
    parameter written [ph: *mut hexchat_plugin,] (which it does remove),
    and is followed by the forwarding call, which invokes the [get_info]
    field of the handle with [self.handle.as_ptr()] and then [id]. *)
Theorem get_info_forwarding :
  rewrite_handles get_info_block = get_info_block ++ forwarding "get_info" "id" /\
  rewrite_handles get_info_ph_block
  = "unsafe fn get_info( id: *const c_char) {" ++ forwarding "get_info" "id".
Proof. split; vm_compute; reflexivity. Qed.

(** Claim C2 fails: the handle parameter named [handle] stays in the
    emitted declaration. *)
Lemma get_info_handle_kept_counterexample :
  exists rest, rewrite_handles get_info_block
               = "unsafe fn get_info(handle: *mut hexchat_plugin," ++ rest.
Proof.
  exists (" id: *const c_char) {" ++ forwarding "get_info" "id").
  vm_compute. reflexivity.
Qed.

End RewriteFacts.

(* ================================================================== *)
(** * Further properties *)

(** ** Event generator *)

Module EventExtras.
Import GenerateEvents EventFacts Samples Shapes.

Lemma readTextEvents_loop_length fuel i (lines : list string) :
  length lines <= i + 6 * fuel ->
  length (readTextEvents_loop fuel i lines) = (length lines - i + 5) / 6.
Proof.
  revert i. induction fuel as [|fuel IH]; intros i H; cbn [readTextEvents_loop].
  - simpl. replace (length lines - i) with 0 by lia. reflexivity.
  - destruct (Nat.ltb_spec i (length lines)).
    + cbn [length]. rewrite IH by lia.
      remember (length lines - i) as n eqn:En.
      replace (length lines - (i + 6)) with (n - 6) by lia.
      assert (Hn : 1 <= n) by lia. clear -Hn.
      destruct (Nat.le_gt_cases 6 n).
      * apply (Nat.div_unique _ _ _ ((n - 6 + 5) mod 6)); [apply Nat.mod_upper_bound; lia|].
        pose proof (Nat.div_mod (n - 6 + 5) 6 ltac:(lia)). lia.
      * replace (n - 6 + 5) with 5 by lia. apply (Nat.div_unique _ _ _ (n - 1)); simpl; lia.
    + simpl. replace (length lines - i) with 0 by lia. reflexivity.
Qed.

Lemma split_by_cons (p : ascii -> bool) (s : string) : exists w ws, split_by p s = w :: ws.
Proof.
  induction s as [|c s [w [ws IH]]]; simpl; [eauto|].
  rewrite IH. destruct (p c); eauto.
Qed.

Lemma split_by_app_sep_gen (p : ascii -> bool) (a b : string) (c : ascii) :
  p c = true -> split_by p (a ++ String c b) = (split_by p a ++ split_by p b)%list.
Proof.
  intros Hc. induction a as [|x a IH].
  - simpl. rewrite Hc. reflexivity.
  - rewrite append_cons. cbn [split_by]. rewrite IH. destruct (p x); [reflexivity|].
    destruct (split_by_cons p a) as [w [ws ->]]. reflexivity.
Qed.

Lemma readTextEvents_lines_length (lines : list string) :
  length (readTextEvents_lines lines) = (length lines + 5) / 6.
Proof.
  unfold readTextEvents_lines. rewrite readTextEvents_loop_length by lia.
  rewrite Nat.sub_0_r. reflexivity.
Qed.

(** X2: When the event table has a multiple of six lines, a newline at its
    end adds one more record: an event whose name is the empty line and
    whose other entries are undefined.  The event generator, given
    descriptors read normally, then emits the lines of the earlier records
    and throws on that name. *)
Theorem readTextEvents_trailing_blank (t : string) (k : nat) (ds : list FieldDescriptor)
  (Hk : length (split_lines t) = 6 * k) :
  readTextEvents (t ++ nl) = (readTextEvents t ++ [blank_event])%list /\
  generate_from (GDone ds) (readTextEvents (t ++ nl))
  = gen_then (emit_all (event_line (field_descriptions ds)) (readTextEvents t))
             (GThrow [] (TypeError "w[0] is undefined")).
Proof.
  assert (Hl : split_lines (t ++ nl) = (split_lines t ++ [""])%list).
  { unfold split_lines, nl, chr. rewrite split_by_app_sep_gen by apply Ascii.eqb_refl.
    reflexivity. }
  assert (He : readTextEvents (t ++ nl) = (readTextEvents t ++ [blank_event])%list).
  { unfold readTextEvents. rewrite Hl. set (L := split_lines t) in *.
    apply list_eq. intros j. unfold readTextEvents_lines at 1.
    rewrite (readTextEvents_loop_lookup _ _ 0 j) by (rewrite length_app; simpl; lia).
    rewrite length_app. cbn [length]. rewrite Nat.add_0_l.
    assert (HL : length (readTextEvents_lines L) = k).
    { rewrite readTextEvents_lines_length, Hk.
      symmetry. apply (Nat.div_unique _ _ _ 5); lia. }
    destruct (Nat.lt_total j k) as [Hj|[->|Hj]].
    - rewrite lookup_app_l by lia.
      unfold readTextEvents_lines.
      rewrite (readTextEvents_loop_lookup _ _ 0 j) by lia.
      destruct (Nat.ltb_spec (6 * j) (length L + 1)); [|lia].
      destruct (Nat.ltb_spec (0 + 6 * j) (length L)); [|lia].
      unfold event_at. rewrite Nat.add_0_l, !lookup_app_l by lia. reflexivity.
    - rewrite (lookup_app_r (readTextEvents_lines L)) by lia. rewrite HL, Nat.sub_diag.
      destruct (Nat.ltb_spec (6 * k) (length L + 1)); [|lia].
      unfold event_at, blank_event. cbn [lookup list_lookup]. f_equal. f_equal.
      + rewrite lookup_app_r by lia. rewrite Hk, !Nat.add_0_r, Nat.sub_diag. reflexivity.
      + apply lookup_ge_None_2. rewrite length_app. simpl. lia.
      + apply lookup_ge_None_2. rewrite length_app. simpl. lia.
      + apply lookup_ge_None_2. rewrite length_app. simpl. lia.
      + apply lookup_ge_None_2. rewrite length_app. simpl. lia.
    - destruct (Nat.ltb_spec (6 * j) (length L + 1)); [lia|].
      symmetry. apply lookup_ge_None_2. rewrite length_app, HL. simpl. lia. }
  split; [exact He|].
  rewrite He. unfold generate_from. apply emit_all_app_err. reflexivity.
Qed.

Lemma readTextEvents_trailing_blank_witness :
  length (split_lines (String.concat nl ["a"; "b"; "c"; "d"; "e"; "f"])) = 6 * 1 /\
  readTextEvents (String.concat nl ["a"; "b"; "c"; "d"; "e"; "f"] ++ nl)
  = (readTextEvents (String.concat nl ["a"; "b"; "c"; "d"; "e"; "f"]) ++ [blank_event])%list.
Proof.
  assert (Hk : length (split_lines (String.concat nl ["a"; "b"; "c"; "d"; "e"; "f"])) = 6 * 1)
    by (vm_compute; reflexivity).
  split; [exact Hk|].
  exact (proj1 (readTextEvents_trailing_blank _ 1 [] Hk)).
Defined.

Lemma foldl_insert_lookup (ds : list FieldDescriptor) (m : gmap string (list string)) (k : string) :
  foldl (fun m d => <[fd_key d := fd_fields d]> m) m ds !! k =
  match last (filter (fun d => fd_key d = k) ds) with
  | Some d => Some (fd_fields d)
  | None => m !! k
  end.
Proof.
  induction ds as [|d ds IH] using rev_ind; [reflexivity|].
  rewrite foldl_app, filter_app. cbn [foldl].
  rewrite filter_cons, filter_nil.
  destruct (decide (fd_key d = k)) as [<-|Hne].
  - rewrite last_snoc, lookup_insert_eq. reflexivity.
  - rewrite app_nil_r, lookup_insert_ne by congruence. exact IH.
Qed.

(** X3: The descriptor map of [generateRustLines] gives for a key the fields
    of the last descriptor with that key; the sentinel key
    [pevt_generic_none_help] gives the empty list unless a descriptor
    overrides it, and any other key is missing. *)
Theorem field_descriptions_lookup (ds : list FieldDescriptor) (k : string) :
  field_descriptions ds !! k =
  match last (filter (fun d => fd_key d = k) ds) with
  | Some d => Some (fd_fields d)
  | None => if String.eqb k sentinel_key then Some [] else None
  end.
Proof.
  unfold field_descriptions. rewrite foldl_insert_lookup.
  destruct (last _); [reflexivity|].
  destruct (String.eqb_spec k sentinel_key) as [->|Hne].
  - apply lookup_insert_eq.
  - rewrite lookup_insert_ne by congruence. apply lookup_empty.
Qed.

Lemma gen_then_done_cons {A} (y : A) ys (g : gen A) :
  gen_then (GDone (y :: ys)) g = gcons y (gen_then (GDone ys) g).
Proof. destruct g; reflexivity. Qed.

Lemma rd_loop_blanks (blanks rest : list string) :
  Forall (fun l => l = "") blanks ->
  rd_loop RdBlank (blanks ++ rest) = rd_loop RdBlank rest.
Proof. induction 1; simpl; [reflexivity|]. subst x. exact IHForall. Qed.

Lemma rd_loop_decl (st : rd_state) (decl key : string) (rest : list string) :
  st = RdDecl \/ st = RdBlank -> search key_at decl = Some key ->
  rd_loop st (decl :: rest) = rd_loop (RdFields key []) rest.
Proof.
  intros Hst Hd.
  assert (H : rd_decl decl = inl (RdFields key [])) by (unfold rd_decl; rewrite Hd; reflexivity).
  destruct Hst as [-> | ->]; simpl; [rewrite H; reflexivity|].
  destruct decl as [|c r]; [discriminate Hd|]. simpl. rewrite H. reflexivity.
Qed.

Lemma rd_loop_blocks (blocks : list (list string * FieldDescriptor)) :
  Forall (fun b => descriptor_block b.1 b.2) blocks ->
  forall st rest, st = RdDecl \/ st = RdBlank ->
  rd_loop st (concat (map fst blocks) ++ rest)
  = gen_then (GDone (map snd blocks))
      (rd_loop (match blocks with [] => st | _ => RdBlank end) rest).
Proof.
  induction 1 as [|[ls d] blocks Hb _ IH]; intros st rest Hst.
  - cbn [map concat app]. destruct (rd_loop st rest); reflexivity.
  - cbn [fst snd] in Hb. destruct Hb as (decl & body & close & blanks & -> & Hd & Hbody & Hclose & Hbl).
    cbn [map concat fst snd]. rewrite <- app_assoc. cbn [app].
    rewrite (rd_loop_decl st decl (fd_key d)) by assumption.
    rewrite <- app_assoc. cbn [app].
    rewrite (rd_loop_fields _ body (fd_fields d) close) by assumption.
    rewrite rd_loop_blanks by assumption.
    rewrite (IH RdBlank rest (or_intror eq_refl)), gen_then_done_cons.
    destruct d. destruct blocks; reflexivity.
Qed.

(** X4: When the descriptor file is an 18-line header followed by
    well-formed tables (a declaration line, field lines, a closing line
    starting with [}], empty lines), [readDescriptions] ends normally and
    yields one descriptor per table, in order. *)
Theorem readDescriptions_blocks (s : string) (header : list string)
  (blocks : list (list string * FieldDescriptor))
  (Hh : length header = commentLines)
  (Hs : split_lines s = (header ++ concat (map fst blocks))%list)
  (Hb : Forall (fun b => descriptor_block b.1 b.2) blocks) :
  readDescriptions s = GDone (map snd blocks).
Proof.
  unfold readDescriptions. rewrite Hs, drop_app_length' by (symmetry; exact Hh).
  rewrite <- (app_nil_r (concat _)).
  rewrite (rd_loop_blocks blocks Hb RdDecl [] (or_introl eq_refl)).
  destruct blocks; simpl; rewrite ?app_nil_r; reflexivity.
Qed.

Lemma readDescriptions_blocks_witness :
  readDescriptions (String.concat nl (repeat "" 18 ++ [demo_decl; demo_line; "};"; ""]))
  = GDone [{| fd_key := "pevt_demo_help"; fd_fields := ["Nickname"] |}].
Proof.
  refine (readDescriptions_blocks _ (repeat "" 18)
    [([demo_decl; demo_line; "};"; ""], {| fd_key := "pevt_demo_help"; fd_fields := ["Nickname"] |})]
    _ _ _).
  - reflexivity.
  - vm_compute. reflexivity.
  - constructor; [|constructor].
    exists demo_decl, [demo_line], "};", [""]. cbn [fst snd].
    split; [reflexivity|]. split; [vm_compute; reflexivity|].
    split; [constructor; [vm_compute; split; reflexivity|constructor]|].
    split; [reflexivity|]. constructor; [reflexivity|constructor].
Defined.

Lemma rd_loop_field_lines (key : string) (body rest : list string) :
  Forall (fun l => String.prefix "}" l = false /\ exists f, field_of l = Some f) body ->
  forall acc, exists acc', rd_loop (RdFields key acc) (body ++ rest) = rd_loop (RdFields key acc') rest.
Proof.
  induction 1 as [|l body [Hl [f Hf]] _ IH]; intros acc; [exists acc; reflexivity|].
  simpl. rewrite Hl, Hf. apply IH.
Qed.

(** X5: After the well-formed tables, [readDescriptions] throws after
    yielding their descriptors when the next table is unterminated (it reads
    past the last line), when a field line matches neither field pattern, or
    when a non-empty line is not a declaration. *)
Theorem readDescriptions_errors (s : string) (header : list string)
  (blocks : list (list string * FieldDescriptor)) (rest : list string)
  (Hh : length header = commentLines)
  (Hs : split_lines s = (header ++ concat (map fst blocks) ++ rest)%list)
  (Hb : Forall (fun b => descriptor_block b.1 b.2) blocks) :
  (forall decl key body,
     search key_at decl = Some key ->
     Forall (fun l => String.prefix "}" l = false /\ exists f, field_of l = Some f) body ->
     (rest = decl :: body ->
      readDescriptions s = GThrow (map snd blocks) (TypeError "lines[i] is undefined")) /\
     (forall bad more, rest = (decl :: body ++ bad :: more)%list ->
      String.prefix "}" bad = false -> field_of bad = None ->
      readDescriptions s = GThrow (map snd blocks) (TypeError "const [, field] = null"))) /\
  (forall bad more, rest = bad :: more ->
     is_emptyb bad = false -> search key_at bad = None ->
     readDescriptions s = GThrow (map snd blocks) (TypeError "const [, key] = null")).
Proof.
  assert (Hr : forall r, rest = r -> readDescriptions s
                = gen_then (GDone (map snd blocks))
                    (rd_loop (match blocks with [] => RdDecl | _ => RdBlank end) r)).
  { intros r <-. unfold readDescriptions. rewrite Hs, drop_app_length' by (symmetry; exact Hh).
    apply rd_loop_blocks; [exact Hb|left; reflexivity]. }
  assert (Hst : match blocks with [] => RdDecl | _ => RdBlank end = RdDecl \/
                match blocks with [] => RdDecl | _ => RdBlank end = RdBlank)
    by (destruct blocks; auto).
  assert (Hthrow : forall e, gen_then (GDone (map snd blocks)) (GThrow [] e)
                             = GThrow (map snd blocks) e)
    by (intros e; simpl; rewrite app_nil_r; reflexivity).
  split.
  - intros decl key body Hd Hbody. split.
    + intros Er. rewrite (Hr _ Er), (rd_loop_decl _ decl key) by assumption.
      rewrite <- (app_nil_r body).
      destruct (rd_loop_field_lines key body [] Hbody []) as [acc' ->].
      apply Hthrow.
    + intros bad more Er Hbad Hf. rewrite (Hr _ Er), (rd_loop_decl _ decl key) by assumption.
      destruct (rd_loop_field_lines key body (bad :: more) Hbody []) as [acc' ->].
      simpl. rewrite Hbad, Hf. apply Hthrow.
  - intros bad more Er Hne Hk. rewrite (Hr _ Er).
    assert (Hd : rd_decl bad = inr (TypeError "const [, key] = null"))
      by (unfold rd_decl; rewrite Hk; reflexivity).
    destruct Hst as [-> | ->]; simpl; [rewrite Hd; apply Hthrow|].
    rewrite Hne, Hd. apply Hthrow.
Qed.

Lemma readDescriptions_errors_witness :
  readDescriptions (String.concat nl (repeat "" 18 ++ [demo_decl; demo_line]))
  = GThrow [] (TypeError "lines[i] is undefined").
Proof.
  refine (proj1 (proj1 (readDescriptions_errors _ (repeat "" 18) [] [demo_decl; demo_line]
                          _ _ (List.Forall_nil _)) demo_decl "pevt_demo_help" [demo_line] _ _) eq_refl).
  - reflexivity.
  - vm_compute. reflexivity.
  - vm_compute. reflexivity.
  - constructor; [|constructor]. split; [reflexivity|]. exists "Nickname". vm_compute. reflexivity.
Defined.

Lemma emit_all_done {A} (f : A -> res string) (xs : list A) (ys : list string) :
  emit_all f xs = GDone ys <-> Forall2 (fun x y => f x = Ok y) xs ys.
Proof.
  revert ys. induction xs as [|x xs IH]; intros ys; simpl.
  - split; [intros [= <-]; constructor|intros H; inversion H; reflexivity].
  - destruct (f x) as [l|e] eqn:Hx.
    + destruct (emit_all f xs) as [zs|zs e] eqn:E; simpl.
      * split.
        -- intros [= <-]. constructor; [exact Hx|]. apply IH. reflexivity.
        -- intros H. inversion H as [|? y ? ys' Hy Hys]; subst.
           rewrite Hx in Hy. injection Hy as ->. apply IH in Hys. congruence.
      * split; [discriminate|].
        intros H. inversion H as [|? y ? ys' Hy Hys]; subst.
        apply IH in Hys. discriminate.
    + split; [discriminate|]. intros H. inversion H; subst. congruence.
Qed.

Lemma emit_all_throw {A} (f : A -> res string) (xs : list A) (ys : list string) e :
  emit_all f xs = GThrow ys e <->
  exists pre x post, xs = (pre ++ x :: post)%list /\
    Forall2 (fun x y => f x = Ok y) pre ys /\ f x = Err e.
Proof.
  revert ys. induction xs as [|x xs IH]; intros ys; simpl.
  - split; [discriminate|]. intros (pre & x & post & H & _). destruct pre; discriminate.
  - destruct (f x) as [l|e'] eqn:Hx.
    + destruct (emit_all f xs) as [zs|zs e''] eqn:E; simpl.
      * split; [discriminate|].
        intros (pre & y & post & Hxs & Hpre & Hy).
        destruct pre as [|z pre]; simpl in Hxs; injection Hxs as -> Hxs; subst.
        -- congruence.
        -- inversion Hpre as [|? ? ? ys' Hz Hys]; subst.
           assert (Hg : GDone zs = GThrow ys' e) by (apply IH; eauto 10).
           discriminate.
      * split.
        -- intros [= <- <-]. destruct (proj1 (IH zs) eq_refl) as (pre & y & post & -> & Hpre & Hy).
           exists (x :: pre), y, post. split; [reflexivity|]. split; [constructor; assumption|exact Hy].
        -- intros (pre & y & post & Hxs & Hpre & Hy).
           destruct pre as [|z pre]; simpl in Hxs; injection Hxs as -> Hxs; subst.
           ++ congruence.
           ++ inversion Hpre as [|? ? ? ys' Hz Hys]; subst.
              rewrite Hx in Hz. injection Hz as ->.
              assert (Hg : GThrow zs e'' = GThrow ys' e) by (apply IH; eauto 10).
              injection Hg as -> ->. reflexivity.
    + split.
      * intros [= <- <-]. exists [], x, xs. split; [reflexivity|]. split; [constructor|exact Hx].
      * intros (pre & y & post & Hxs & Hpre & Hy).
        destruct pre as [|z pre]; simpl in Hxs; injection Hxs as -> Hxs; subst.
        -- inversion Hpre. congruence.
        -- inversion Hpre; subst. congruence.
Qed.

(** X6: The event generator ends normally exactly when [readDescriptions]
    ends normally and every event record converts, yielding one line per
    record in order; it throws exactly when [readDescriptions] throws
    (before any line), or at the first record that fails to convert, after
    the lines of the records before it. *)
Theorem generateRustLines_outcome (descriptions textEvents : string) :
  (forall ls, generateRustLines descriptions textEvents = GDone ls <->
     exists ds, readDescriptions descriptions = GDone ds /\
       Forall2 (fun ev l => event_line (field_descriptions ds) ev = Ok l)
         (readTextEvents textEvents) ls) /\
  (forall ys e, generateRustLines descriptions textEvents = GThrow ys e <->
     (ys = [] /\ exists ds', readDescriptions descriptions = GThrow ds' e) \/
     exists ds pre ev post, readDescriptions descriptions = GDone ds /\
       readTextEvents textEvents = (pre ++ ev :: post)%list /\
       Forall2 (fun ev l => event_line (field_descriptions ds) ev = Ok l) pre ys /\
       event_line (field_descriptions ds) ev = Err e).
Proof.
  unfold generateRustLines, generate_from.
  destruct (readDescriptions descriptions) as [ds|ds' e'].
  - split.
    + intros ls. rewrite emit_all_done. split; [eauto|].
      intros (ds0 & [= <-] & H). exact H.
    + intros ys e. rewrite emit_all_throw. split.
      * intros H. right. destruct H as (pre & ev & post & H1 & H2 & H3). eauto 10.
      * intros [(_ & ds' & [=])|(ds0 & pre & ev & post & [= <-] & H)]. eauto.
  - split.
    + intros ls. split; [discriminate|]. intros (ds & [=] & _).
    + intros ys e. split.
      * intros [= <- <-]. left. eauto.
      * intros [(-> & ds'' & [= _ <-])|(ds & pre & ev & post & [=] & _)]. reflexivity.
Qed.

Lemma str_forallb_concat (p : ascii -> bool) (sep : string) (xs : list string) :
  str_forallb p sep = true -> Forall (fun x => str_forallb p x = true) xs ->
  str_forallb p (String.concat sep xs) = true.
Proof.
  intros Hsep. induction 1 as [|x xs Hx Hxs IH]; [reflexivity|].
  destruct xs as [|y ys]; [exact Hx|].
  change (String.concat sep (x :: y :: ys)) with (x ++ sep ++ String.concat sep (y :: ys)).
  rewrite !str_forallb_app, Hx, Hsep, IH. reflexivity.
Qed.

Lemma split_by_tokens (p : ascii -> bool) (s : string) :
  Forall (fun w => str_forallb (fun c => negb (p c)) w = true) (split_by p s).
Proof.
  induction s as [|c s IH]; simpl; [repeat constructor|].
  destruct (p c) eqn:Hc; [constructor; [reflexivity|exact IH]|].
  destruct (split_by p s) as [|w ws]; [repeat constructor; simpl; rewrite Hc; reflexivity|].
  inversion IH as [|? ? Hw Hws]; subst. constructor; [|exact Hws].
  simpl. rewrite Hc, Hw. reflexivity.
Qed.

Lemma str_forallb_impl (p q : ascii -> bool) (s : string) :
  (forall c, p c = true -> q c = true) -> str_forallb p s = true -> str_forallb q s = true.
Proof.
  intros Hpq. induction s as [|c s IH]; simpl; [reflexivity|].
  intros H. apply andb_prop in H as [H1 H2]. rewrite (Hpq c H1), (IH H2). reflexivity.
Qed.

Lemma is_word_to_upper (c : ascii) : is_word (to_upper c) = is_word c.
Proof. destruct c as [[] [] [] [] [] [] [] []]; vm_compute; reflexivity. Qed.

Lemma is_word_to_lower (c : ascii) : is_word (to_lower c) = is_word c.
Proof. destruct c as [[] [] [] [] [] [] [] []]; vm_compute; reflexivity. Qed.

Lemma str_map_word (f : ascii -> ascii) (s : string) :
  (forall c, is_word (f c) = is_word c) ->
  str_forallb is_word (str_map f s) = str_forallb is_word s.
Proof.
  intros Hf. induction s as [|c s IH]; simpl; [reflexivity|]. rewrite Hf, IH. reflexivity.
Qed.

Lemma nat_str_digits (n : nat) : str_forallb (in_range 48 57) (nat_str n) = true.
Proof.
  unfold nat_str. induction (Nat.to_uint n) as [| d IH | d IH | d IH | d IH | d IH
                                                 | d IH | d IH | d IH | d IH | d IH];
    simpl; rewrite ?IH; reflexivity.
Qed.

Lemma res_map_title_word_ok (ws vs : list string) :
  res_map title_word ws = Ok vs ->
  Forall2 (fun w v => exists c r, w = String c r /\ v = String (to_upper c) (js_lower r)) ws vs.
Proof.
  revert vs. induction ws as [|w ws IH]; intros vs; simpl.
  - intros [= <-]. constructor.
  - destruct w as [|c r]; simpl; [discriminate|].
    destruct (res_map title_word ws) as [vs'|e]; simpl; [|discriminate].
    intros [= <-]. constructor; [eauto|]. apply IH. reflexivity.
Qed.

Lemma to_upper_not_lower (c : ascii) : in_range 97 122 (to_upper c) = false.
Proof. destruct c as [[] [] [] [] [] [] [] []]; vm_compute; reflexivity. Qed.

Lemma nameToCamelCase_word (name ident : string) :
  nameToCamelCase name = Ok ident -> str_forallb is_word ident = true.
Proof.
  intros H. unfold nameToCamelCase in H.
  destruct (res_map title_word _) as [vs|e] eqn:E; simpl in H; [|discriminate].
  injection H as <-. apply res_map_title_word_ok in E.
  pose proof (split_by_tokens (fun c => negb (is_word c)) name) as Htok.
  apply str_forallb_concat; [reflexivity|].
  revert Htok. induction E as [|w v ws vs (c & r & -> & ->) _ IH]; intros Htok; [constructor|].
  apply Forall_cons in Htok as [Hw Hws]. constructor; [|exact (IH Hws)].
  simpl in Hw |- *. apply andb_prop in Hw as [Hc Hr].
  rewrite is_word_to_upper. rewrite negb_involutive in Hc. rewrite Hc. simpl.
  unfold js_lower. rewrite str_map_word by apply is_word_to_lower.
  eapply str_forallb_impl; [|exact Hr]. intros x Hx. cbn beta in Hx.
  destruct (is_word x); [reflexivity|discriminate Hx].
Qed.

(** X7: When the event [nameToCamelCase] returns an identifier, it is a
    non-empty text of word characters whose first character is not a
    lower-case letter. *)
Theorem nameToCamelCase_alphabet (name ident : string)
  (H : nameToCamelCase name = Ok ident) :
  str_forallb is_word ident = true /\
  exists c r, ident = String c r /\ in_range 97 122 c = false.
Proof.
  split; [exact (nameToCamelCase_word name ident H)|].
  unfold nameToCamelCase in H.
  destruct (res_map title_word _) as [vs|e] eqn:E; simpl in H; [|discriminate].
  injection H as <-. apply res_map_title_word_ok in E.
  destruct (split_by_cons (fun c => negb (is_word c)) name) as [w0 [ws0 Hsplit]].
  rewrite Hsplit in E.
  inversion E as [|? v ? vs' (c & r & -> & ->) _]; subst.
  destruct vs' as [|v' vs'']; simpl.
  - exists (to_upper c), (js_lower r). split; [reflexivity|apply to_upper_not_lower].
  - exists (to_upper c), (js_lower r ++ "" ++ String.concat "" (v' :: vs'')).
    split; [reflexivity|apply to_upper_not_lower].
Qed.

Lemma nameToCamelCase_alphabet_witness :
  nameToCamelCase "Channel Message" = Ok "ChannelMessage" /\
  str_forallb is_word "ChannelMessage" = true.
Proof.
  assert (H : nameToCamelCase "Channel Message" = Ok "ChannelMessage") by (vm_compute; reflexivity).
  split; [exact H|]. exact (proj1 (nameToCamelCase_alphabet _ _ H)).
Defined.

Lemma written_split (ls : list string) :
  Forall (fun l => nonl l = true) ls -> split_lines (written ls) = (ls ++ [""])%list.
Proof.
  induction 1 as [|l ls Hl _ IH]; [reflexivity|].
  cbn [written]. change (nl ++ written ls) with (String NL (written ls)).
  unfold split_lines. rewrite split_by_app_sep; [|exact Hl|apply Ascii.eqb_refl].
  fold (split_lines (written ls)). rewrite IH. reflexivity.
Qed.

Lemma search_some {A} (m : string -> option A) (s : string) (a : A) :
  search m s = Some a -> exists s', m s' = Some a.
Proof.
  induction s as [|c s IH]; simpl.
  - destruct (m "") eqn:E; intros H; [injection H as ->; eauto|discriminate].
  - destruct (m (String c s)) eqn:E; intros H; [injection H as ->; eauto|auto].
Qed.

Lemma dot_plus_no_term (k : string -> bool) (r t : string) :
  dot_plus k r = Some t -> str_forallb (fun c => negb (is_line_term c)) t = true.
Proof.
  revert t. induction r as [|c r IH]; intros t; simpl; [discriminate|].
  destruct (is_line_term c) eqn:Hc; [discriminate|].
  destruct (dot_plus k r) as [t'|] eqn:E.
  - intros [= <-]. simpl. rewrite Hc, (IH t' eq_refl). reflexivity.
  - destruct (k r); [|discriminate]. intros [= <-]. simpl. rewrite Hc. reflexivity.
Qed.

Lemma no_term_nonl (s : string) :
  str_forallb (fun c => negb (is_line_term c)) s = true -> nonl s = true.
Proof.
  apply str_forallb_impl. intros c H. unfold is_line_term in H.
  rewrite Ascii.eqb_sym. destruct (Ascii.eqb c NL); [discriminate H|reflexivity].
Qed.

Lemma field_of_nonl (line f : string) : field_of line = Some f -> nonl f = true.
Proof.
  intros H. apply no_term_nonl. unfold field_of in H.
  destruct (search wrapped_at line) as [f'|] eqn:E.
  - injection H as <-. apply search_some in E as [s' E].
    unfold wrapped_at in E. destruct (strip_prefix _ s'); [|discriminate].
    exact (dot_plus_no_term _ _ _ E).
  - apply search_some in H as [s' E2]. unfold bare_at in E2.
    destruct s' as [|c r]; [discriminate|]. destruct (is_space c); [|discriminate].
    destruct (strip_prefix _ r); [|discriminate]. exact (dot_plus_no_term _ _ _ E2).
Qed.

Lemma rd_loop_nonl (lines : list string) :
  forall st, rd_ok st ->
  Forall (fun d => Forall (fun f => nonl f = true) (fd_fields d)) (yields (rd_loop st lines)).
Proof.
  induction lines as [|line lines IH]; intros st Hst.
  - destruct st; constructor.
  - destruct st as [|key acc|]; cbn [rd_loop].
    + unfold rd_decl. destruct (search key_at line); [apply IH; constructor|constructor].
    + destruct (String.prefix "}" line).
      * destruct (rd_loop RdBlank lines) as [ys|ys e] eqn:E; simpl;
          (constructor; [exact Hst|]); pose proof (IH RdBlank I) as H; rewrite E in H; exact H.
      * destruct (field_of line) as [f|] eqn:Hf; [|constructor].
        apply IH. simpl. apply Forall_app. split; [exact Hst|].
        constructor; [exact (field_of_nonl _ _ Hf)|constructor].
    + destruct (is_emptyb line); [apply IH; exact I|].
      unfold rd_decl. destruct (search key_at line); [apply IH; constructor|constructor].
Qed.

Lemma word_nonl (s : string) : str_forallb is_word s = true -> nonl s = true.
Proof.
  apply str_forallb_impl. intros c H.
  destruct (Ascii.eqb_spec NL c) as [<-|]; [discriminate H|reflexivity].
Qed.

Lemma event_line_nonl (m : gmap string (list string)) (ev : EventSpec) (l : string) :
  (forall k v, m !! k = Some v -> Forall (fun f => nonl f = true) v) ->
  nonl (js_text (ev_name ev)) = true -> nonl (js_text (ev_format ev)) = true ->
  event_line m ev = Ok l -> nonl l = true.
Proof.
  intros Hm Hn Hf. unfold event_line.
  destruct (call_nameToCamelCase (ev_name ev)) as [ident|e] eqn:Hi; simpl; [|discriminate].
  destruct (m !! js_text (ev_fields_key ev)) as [fs|] eqn:Hk; simpl; [|discriminate].
  intros [= <-].
  assert (Hid : nonl ident = true).
  { apply word_nonl. destruct (ev_name ev); simpl in Hi; [|discriminate].
    exact (nameToCamelCase_word _ _ Hi). }
  assert (Hp : nonl (String.concat ", " (field_pairs fs)) = true).
  { apply str_forallb_concat; [reflexivity|].
    unfold field_pairs. apply Forall_lookup. intros j x Hj.
    rewrite list_lookup_imap in Hj. destruct (fs !! j) as [f|] eqn:Hfj; [|discriminate].
    injection Hj as <-.
    pose proof (Forall_lookup_1 _ _ _ _ (Hm _ _ Hk) Hfj) as Hf'. simpl in Hf'.
    unfold nonl. rewrite !str_forallb_app. fold (nonl f). rewrite Hf'.
    replace (str_forallb _ (nat_str j)) with true; [reflexivity|].
    symmetry. eapply str_forallb_impl; [|apply (nat_str_digits j)].
    intros c Hc. destruct (Ascii.eqb_spec NL c) as [<-|]; [discriminate Hc|reflexivity]. }
  unfold nonl. rewrite !str_forallb_app. fold (nonl ident).
  fold (nonl (js_text (ev_name ev))). fold (nonl (js_text (ev_format ev))).
  fold (nonl (String.concat ", " (field_pairs fs))).
  rewrite Hid, Hn, Hf, Hp. reflexivity.
Qed.

Lemma split_lines_nonl (s : string) : Forall (fun l => nonl l = true) (split_lines s).
Proof. exact (split_by_tokens (Ascii.eqb NL) s). Qed.

Lemma readTextEvents_loop_nonl fuel i (lines : list string) :
  Forall (fun l => nonl l = true) lines ->
  Forall (fun ev => nonl (js_text (ev_name ev)) = true /\ nonl (js_text (ev_format ev)) = true)
    (readTextEvents_loop fuel i lines).
Proof.
  intros Hl.
  assert (Hj : forall j, nonl (js_text (lines !! j)) = true).
  { intros j. destruct (lines !! j) eqn:E; [|reflexivity].
    exact (Forall_lookup_1 _ _ _ _ Hl E). }
  revert i. induction fuel as [|fuel IH]; intros i; cbn [readTextEvents_loop]; [constructor|].
  destruct (Nat.ltb i (length lines)); [|constructor].
  constructor; [split; apply Hj|apply IH].
Qed.

Lemma field_descriptions_nonl (ds : list FieldDescriptor) :
  Forall (fun d => Forall (fun f => nonl f = true) (fd_fields d)) ds ->
  forall k v, field_descriptions ds !! k = Some v -> Forall (fun f => nonl f = true) v.
Proof.
  intros Hds k v. unfold field_descriptions. rewrite foldl_insert_lookup.
  destruct (last (filter _ ds)) as [d|] eqn:E.
  - intros [= <-]. apply last_Some_elem_of in E. apply list_elem_of_filter in E as [_ E].
    rewrite Forall_forall in Hds. apply Hds. exact E.
  - destruct (decide (k = sentinel_key)) as [->|Hne].
    + rewrite lookup_insert_eq. intros [= <-]. constructor.
    + rewrite lookup_insert_ne by congruence. rewrite lookup_empty. discriminate.
Qed.

(** X8: When the event [main] completes, the generator ended normally and
    the written file is its lines, one per event record, each followed by a
    newline. *)
Theorem events_main_lines (descriptions textEvents out : string)
  (H : main descriptions textEvents = Ok out) :
  exists ls, generateRustLines descriptions textEvents = GDone ls /\
    split_lines out = (ls ++ [""])%list /\ length ls = length (readTextEvents textEvents).
Proof.
  unfold main, write_lines in H.
  destruct (generateRustLines descriptions textEvents) as [ls|] eqn:G; [|discriminate].
  injection H as <-. exists ls. split; [reflexivity|].
  unfold generateRustLines, generate_from in G.
  destruct (readDescriptions descriptions) as [ds|] eqn:D; [|discriminate].
  assert (Hds := rd_loop_nonl (drop commentLines (split_lines descriptions)) RdDecl I).
  unfold readDescriptions in D. rewrite D in Hds. simpl in Hds.
  apply emit_all_done in G.
  assert (Hev := readTextEvents_loop_nonl (length (split_lines textEvents)) 0 _
                   (split_lines_nonl textEvents)).
  fold (readTextEvents_lines (split_lines textEvents)) in Hev.
  fold (readTextEvents textEvents) in Hev, G.
  split; [|symmetry; exact (Forall2_length _ _ _ G)].
  apply written_split.
  induction G as [|ev l evs ls Hl _ IH]; [constructor|].
  apply Forall_cons in Hev as [[Hn Hf] Hev]. constructor; [|exact (IH Hev)].
  exact (event_line_nonl _ ev l (field_descriptions_nonl ds Hds) Hn Hf Hl).
Qed.

Lemma events_main_lines_witness :
  exists out,
    main (String.concat nl (repeat "" 18))
         (String.concat nl ["Test Event"; "sig"; "pevt_generic_none_help"; "fmt"; "0"]) = Ok out /\
    exists ls,
      generateRustLines (String.concat nl (repeat "" 18))
        (String.concat nl ["Test Event"; "sig"; "pevt_generic_none_help"; "fmt"; "0"]) = GDone ls /\
      split_lines out = (ls ++ [""])%list /\
      length ls = length (readTextEvents
        (String.concat nl ["Test Event"; "sig"; "pevt_generic_none_help"; "fmt"; "0"])).
Proof.
  destruct (main (String.concat nl (repeat "" 18))
         (String.concat nl ["Test Event"; "sig"; "pevt_generic_none_help"; "fmt"; "0"]))
    as [out|e] eqn:H; [|vm_compute in H; discriminate].
  exists out. split; [reflexivity|]. exact (events_main_lines _ _ _ H).
Defined.

Lemma split_lines_length (s : string) : length (split_lines s) = newlines s + 1.
Proof.
  unfold split_lines. induction s as [|c s IH]; [reflexivity|].
  cbn [split_by newlines]. destruct (Ascii.eqb NL c).
  - cbn [length]. rewrite IH. lia.
  - destruct (split_by (Ascii.eqb NL) s) as [|w ws]; cbn [length] in IH |- *; lia.
Qed.

(** X1: [readTextEvents] yields one record per started group of six lines:
    with n newlines in the text, n / 6 + 1 records, so never none, even for
    an empty text. *)
Theorem readTextEvents_count (t : string) :
  length (readTextEvents t) = newlines t / 6 + 1.
Proof.
  unfold readTextEvents. rewrite readTextEvents_lines_length, split_lines_length.
  replace (newlines t + 1 + 5) with (newlines t + 1 * 6) by lia.
  rewrite Nat.div_add by lia. reflexivity.
Qed.

End EventExtras.

(** ** Preference generator *)

Module PrefExtras.
Import EventExtras GeneratePrefs Samples Shapes.

Lemma readPrefs_lines_app (a b : list string) :
  readPrefs_lines (a ++ b) = gen_then (readPrefs_lines a) (readPrefs_lines b).
Proof.
  induction a as [|l a IH]; simpl.
  - destruct (readPrefs_lines b); reflexivity.
  - destruct (readPrefs_line l) as [[p|e]|]; [|reflexivity|exact IH].
    rewrite IH, gen_then_gcons. reflexivity.
Qed.

(** X9: Each line of the preference table acts on its own: an empty,
    unindented or sentinel line can be dropped without changing the run, and
    an indented row matching the pattern yields its name and type between
    the yields of the lines before and after it. *)
Theorem readPrefs_line_local (pre post : list string) (line : string) :
  (is_emptyb line = true \/ starts_with_space line = false \/ includes "{0, 0, 0}" line = true ->
   readPrefs_lines (pre ++ line :: post) = readPrefs_lines (pre ++ post)) /\
  (forall name type,
   is_emptyb line = false -> starts_with_space line = true ->
   includes "{0, 0, 0}" line = false -> search row_at line = Some (name, type) ->
   readPrefs_lines (pre ++ line :: post)
   = gen_then (readPrefs_lines pre)
       (gcons {| pref_name := name; pref_type := type |} (readPrefs_lines post))).
Proof.
  split.
  - intros H. rewrite !readPrefs_lines_app. f_equal. simpl.
    unfold readPrefs_line.
    destruct H as [-> | [-> | ->]]; [reflexivity| |].
    + destruct (is_emptyb line); reflexivity.
    + destruct (is_emptyb line), (negb (starts_with_space line)); reflexivity.
  - intros name type Hne Hsp Hs Hr. rewrite readPrefs_lines_app. f_equal. simpl.
    unfold readPrefs_line. rewrite Hne, Hsp, Hs, Hr. reflexivity.
Qed.

Lemma readPrefs_line_local_witness :
  readPrefs_lines ([tab ++ auto_reconnect_row] ++ "" :: [])
  = readPrefs_lines ([tab ++ auto_reconnect_row] ++ []).
Proof. exact (proj1 (readPrefs_line_local _ _ "") (or_introl eq_refl)). Defined.

Lemma span_forallb (p : ascii -> bool) (s a b : string) :
  span p s = (a, b) -> str_forallb p a = true.
Proof.
  revert a b. induction s as [|c s IH]; intros a b H; simpl in H.
  - injection H as <- <-. reflexivity.
  - destruct (p c) eqn:Hc.
    + destruct (span p s) as [a' b'] eqn:E. injection H as <- <-.
      simpl. rewrite Hc. exact (IH a' b' eq_refl).
    + injection H as <- <-. reflexivity.
Qed.

Lemma plus1_word (p : ascii -> bool) (s a b : string) :
  plus1 p s = Some (a, b) -> is_emptyb a = false /\ str_forallb p a = true.
Proof.
  unfold plus1. destruct (span p s) as [a' b'] eqn:E.
  destruct (is_emptyb a') eqn:He; [discriminate|]. intros [= <- _].
  split; [exact He|exact (span_forallb p s a' b' E)].
Qed.

Lemma row_at_words (s name type : string) :
  row_at s = Some (name, type) -> word_spec {| pref_name := name; pref_type := type |}.
Proof.
  unfold row_at, word_spec; cbn [pref_name pref_type].
  destruct (strip_prefix _ s) as [r1|]; cbn [mbind option_bind]; [|discriminate].
  destruct (plus1 is_word r1) as [[n r2]|] eqn:H2; cbn [mbind option_bind]; [|discriminate].
  destruct (strip_prefix _ r2) as [r3|]; cbn [mbind option_bind]; [|discriminate].
  destruct (plus1 _ r3) as [[x r4]|]; cbn [mbind option_bind]; [|discriminate].
  destruct (strip_prefix _ r4) as [r5|]; cbn [mbind option_bind]; [|discriminate].
  destruct (plus1 is_word r5) as [[t r6]|] eqn:H6; cbn [mbind option_bind]; [|discriminate].
  intros [= <- <-].
  destruct (plus1_word _ _ _ _ H2), (plus1_word _ _ _ _ H6). tauto.
Qed.

Lemma readPrefs_lines_words (lines : list string) :
  Forall word_spec (yields (readPrefs_lines lines)).
Proof.
  induction lines as [|line lines IH]; simpl; [constructor|].
  unfold readPrefs_line.
  destruct (is_emptyb line); [exact IH|]. destruct (negb (starts_with_space line)); [exact IH|].
  destruct (includes _ line); [exact IH|].
  destruct (search row_at line) as [[name type]|] eqn:E; [|constructor].
  apply search_some in E as [s' E].
  destruct (readPrefs_lines lines) eqn:G; simpl; constructor;
    try exact (row_at_words _ _ _ E); exact IH.
Qed.

(** X10: Every preference [readPrefs] yields has a non-empty name and a
    non-empty type, both of word characters only. *)
Theorem readPrefs_words (s : string) : Forall word_spec (yields (readPrefs s)).
Proof. apply readPrefs_lines_words. Qed.

Lemma res_map_title_word_prefs (ws : list string) :
  match res_map title_word ws with
  | Ok vs => vs = map spec_title ws
  | Err _ => In EmptyString ws
  end.
Proof.
  induction ws as [|w ws IH]; simpl; [reflexivity|].
  destruct w as [|c r]; simpl; [now left|].
  destruct (res_map title_word ws) as [vs|e]; simpl.
  - rewrite IH. reflexivity.
  - right. exact IH.
Qed.

Lemma res_map_title_word_prefs_empty (ws : list string) :
  In EmptyString ws -> exists e, res_map title_word ws = Err e.
Proof.
  induction ws as [|w ws IH]; simpl; [tauto|].
  intros [Hw|Hin]; [subst w; simpl; eauto|].
  destruct (title_word w); simpl; [|eauto].
  destruct (IH Hin) as [e ->]. simpl. eauto.
Qed.

(** X11: When a preference name has an empty [_]-token (it starts or ends
    with [_], or has two adjacent ones), the preference [nameToCamelCase]
    throws, and the preference generator stops at that preference after the
    lines of the earlier ones. *)
Theorem pref_empty_token_throws (p : PrefSpec) (g : gen PrefSpec) (pre post : list PrefSpec)
  (Hempty : In EmptyString (split_by (Ascii.eqb "_"%char) (pref_name p)))
  (Hy : yields g = (pre ++ p :: post)%list) :
  exists e, nameToCamelCase (pref_name p) = Err e /\ pref_line p = Err e /\
    consume pref_line g = gen_then (emit_all pref_line pre) (GThrow [] e).
Proof.
  destruct (res_map_title_word_prefs_empty _ Hempty) as [e He].
  assert (Hn : nameToCamelCase (pref_name p) = Err e) by (unfold nameToCamelCase; rewrite He; reflexivity).
  assert (Hl : pref_line p = Err e) by (unfold pref_line; rewrite Hn; reflexivity).
  exists e. split; [exact Hn|]. split; [exact Hl|].
  apply (consume_err _ _ pre post p); assumption.
Qed.

Lemma pref_empty_token_throws_witness :
  exists e, consume pref_line (GDone [{| pref_name := "_auto"; pref_type := "TYPE_BOOL" |}])
            = gen_then (emit_all pref_line []) (GThrow [] e).
Proof.
  assert (H : In EmptyString (split_by (Ascii.eqb "_"%char) "_auto")) by (vm_compute; tauto).
  destruct (pref_empty_token_throws {| pref_name := "_auto"; pref_type := "TYPE_BOOL" |}
              (GDone [{| pref_name := "_auto"; pref_type := "TYPE_BOOL" |}]) [] [] H eq_refl)
    as (e & _ & _ & He).
  exists e. exact He.
Defined.

Lemma alnum_to_upper (c : ascii) :
  (is_word (to_upper c) && negb (Ascii.eqb (to_upper c) "_"%char))
  = (is_word c && negb (Ascii.eqb c "_"%char)).
Proof. destruct c as [[] [] [] [] [] [] [] []]; vm_compute; reflexivity. Qed.

Lemma alnum_to_lower (c : ascii) :
  (is_word (to_lower c) && negb (Ascii.eqb (to_lower c) "_"%char))
  = (is_word c && negb (Ascii.eqb c "_"%char)).
Proof. destruct c as [[] [] [] [] [] [] [] []]; vm_compute; reflexivity. Qed.

Lemma str_map_alnum (f : ascii -> ascii) (s : string) :
  (forall c, alnum (f c) = alnum c) -> str_forallb alnum (str_map f s) = str_forallb alnum s.
Proof.
  intros Hf. induction s as [|c s IH]; simpl; [reflexivity|]. rewrite Hf, IH. reflexivity.
Qed.

Lemma pref_ident_alnum (name ident : string) :
  str_forallb is_word name = true -> nameToCamelCase name = Ok ident ->
  str_forallb alnum ident = true.
Proof.
  intros Hw H. unfold nameToCamelCase in H.
  pose proof (res_map_title_word_prefs (split_by (Ascii.eqb "_"%char) name)) as Hm.
  destruct (res_map title_word _) as [vs|e]; simpl in H; [|discriminate].
  injection H as <-. subst vs.
  apply str_forallb_concat; [reflexivity|].
  assert (Htok : Forall (fun w => str_forallb alnum w = true) (split_by (Ascii.eqb "_"%char) name)).
  { clear -Hw. induction name as [|c s IH]; cbn [split_by str_forallb] in *; [repeat constructor|].
    apply andb_prop in Hw as [Hc Hs]. specialize (IH Hs).
    destruct (Ascii.eqb "_"%char c) eqn:Hu; [constructor; [reflexivity|exact IH]|].
    destruct (split_by (Ascii.eqb "_"%char) s) as [|w ws]; [repeat constructor; simpl|].
    - unfold alnum. rewrite Hc, Ascii.eqb_sym, Hu. reflexivity.
    - apply Forall_cons in IH as [Hw' Hws]. constructor; [|exact Hws].
      simpl. unfold alnum at 1. rewrite Hc, Ascii.eqb_sym, Hu, Hw'. reflexivity. }
  apply Forall_fmap. eapply Forall_impl; [exact Htok|].
  intros [|c r]; simpl; [reflexivity|]. intros H. apply andb_prop in H as [Hc Hr].
  fold (alnum (to_upper c)). unfold alnum at 1 in Hc.
  unfold alnum in *. rewrite alnum_to_upper, Hc. simpl.
  unfold js_lower. fold alnum. rewrite str_map_alnum; [exact Hr|].
  intros x. unfold alnum. apply alnum_to_lower.
Qed.

(** X12: When the preference [nameToCamelCase] returns, the identifier is
    the concatenation of the [_]-tokens of the name, each with its first
    character upper-cased and the rest lower-cased; for a name of word
    characters it has no [_]. *)
Theorem pref_identifier (name ident : string) (H : nameToCamelCase name = Ok ident) :
  ident = String.concat EmptyString (map spec_title (split_by (Ascii.eqb "_"%char) name)) /\
  (str_forallb is_word name = true -> str_forallb alnum ident = true).
Proof.
  split; [|intros Hw; exact (pref_ident_alnum name ident Hw H)].
  unfold nameToCamelCase in H.
  pose proof (res_map_title_word_prefs (split_by (Ascii.eqb "_"%char) name)) as Hm.
  destruct (res_map title_word _) as [vs|e]; simpl in H; [|discriminate].
  injection H as <-. rewrite Hm. reflexivity.
Qed.

Lemma pref_identifier_witness :
  nameToCamelCase "auto_reconnect" = Ok "AutoReconnect" /\
  str_forallb alnum "AutoReconnect" = true.
Proof.
  assert (H : nameToCamelCase "auto_reconnect" = Ok "AutoReconnect") by (vm_compute; reflexivity).
  split; [exact H|]. apply (proj2 (pref_identifier _ _ H)). vm_compute. reflexivity.
Defined.

Lemma pref_line_nonl (p : PrefSpec) (l : string) :
  str_forallb is_word (pref_name p) = true -> pref_line p = Ok l -> nonl l = true.
Proof.
  intros Hw. unfold pref_line.
  destruct (nameToCamelCase (pref_name p)) as [ident|e] eqn:Hn; simpl; [|discriminate].
  destruct (typeToRust (pref_type p)) as [ty|e] eqn:Ht; simpl; [|discriminate].
  intros [= <-].
  assert (Hi : nonl ident = true).
  { apply word_nonl. eapply str_forallb_impl; [|exact (pref_ident_alnum _ _ Hw Hn)].
    intros c Hc. unfold alnum in Hc. apply andb_prop in Hc as [Hc _]. exact Hc. }
  assert (Hty : nonl ty = true).
  { unfold typeToRust in Ht.
    destruct (String.eqb _ "TYPE_STR"); [injection Ht as <-; reflexivity|].
    destruct (String.eqb _ "TYPE_INT"); [injection Ht as <-; reflexivity|].
    destruct (String.eqb _ "TYPE_BOOL"); [injection Ht as <-; reflexivity|discriminate]. }
  unfold nonl. rewrite !str_forallb_app. fold (nonl ident) (nonl (pref_name p)) (nonl ty).
  rewrite Hi, Hty, (word_nonl _ Hw). reflexivity.
Qed.

(** X13: When the preference [main] completes, [readPrefs] ended normally
    and the written file is one line per preference it yielded, in order,
    each followed by a newline. *)
Theorem prefs_main_lines (descriptions out : string)
  (H : main descriptions = Ok out) :
  exists ps ls, readPrefs descriptions = GDone ps /\
    Forall2 (fun p l => pref_line p = Ok l) ps ls /\
    split_lines out = (ls ++ [""])%list.
Proof.
  unfold main, write_lines, generateRustLines in H.
  pose proof (readPrefs_lines_words (drop prefixLines (split_lines descriptions))) as Hw.
  fold (readPrefs descriptions) in Hw.
  destruct (readPrefs descriptions) as [ps|ys e] eqn:R; simpl in H.
  - destruct (emit_all pref_line ps) as [ls|] eqn:G; [|discriminate].
    injection H as <-. apply emit_all_done in G.
    exists ps, ls. split; [reflexivity|]. split; [exact G|].
    apply written_split. simpl in Hw. clear R.
    induction G as [|p l ps ls Hl _ IH]; [constructor|].
    apply Forall_cons in Hw as [[_ [Hn _]] Hw].
    constructor; [exact (pref_line_nonl p l Hn Hl)|exact (IH Hw)].
  - destruct (emit_all pref_line ys); discriminate.
Qed.

Lemma prefs_main_lines_witness :
  exists out, main (String.concat nl ["x"; "y"; tab ++ auto_reconnect_row]) = Ok out /\
    exists ps ls, readPrefs (String.concat nl ["x"; "y"; tab ++ auto_reconnect_row]) = GDone ps /\
      Forall2 (fun p l => pref_line p = Ok l) ps ls /\ split_lines out = (ls ++ [""])%list.
Proof.
  destruct (main (String.concat nl ["x"; "y"; tab ++ auto_reconnect_row])) as [out|e] eqn:H;
    [|vm_compute in H; discriminate].
  exists out. split; [reflexivity|]. exact (prefs_main_lines _ _ H).
Defined.

End PrefExtras.

(** ** Signature rewriter *)

Module RewriteExtras.
Import EventExtras HandleRewrite Samples RewriteFacts Shapes.

Lemma prefix_cons (a b : ascii) (p s : string) :
  String.prefix (String a p) (String b s) = if Ascii.eqb a b then String.prefix p s else false.
Proof. simpl. destruct (ascii_dec a b), (Ascii.eqb_spec a b); congruence. Qed.

Lemma strip_prefix_prefix (p s r : string) : strip_prefix p s = Some r -> String.prefix p s = true.
Proof.
  revert s. induction p as [|a p IH]; intros s H; [destruct s; reflexivity|].
  destruct s as [|b s]; [discriminate|]. simpl in H. rewrite prefix_cons.
  destruct (Ascii.eqb a b); [exact (IH s H)|discriminate].
Qed.

Lemma prefix_app_l (p a b : string) :
  String.prefix p (a ++ b) = true -> String.length p <= String.length a -> String.prefix p a = true.
Proof.
  revert a. induction p as [|c p IH]; intros a H Hl; [destruct a; reflexivity|].
  destruct a as [|d a]; simpl in Hl; [lia|].
  rewrite append_cons, prefix_cons in H. rewrite prefix_cons.
  destruct (Ascii.eqb c d); [apply IH; [exact H|lia]|discriminate].
Qed.

Lemma prefix_app_r (p a b : string) :
  String.prefix p (a ++ b) = true -> String.length a <= String.length p ->
  String.prefix (sdrop (String.length a) p) b = true.
Proof.
  revert p. induction a as [|d a IH]; intros p H Hl; [exact H|].
  destruct p as [|c p]; simpl in Hl; [lia|].
  rewrite append_cons, prefix_cons in H. simpl.
  destruct (Ascii.eqb c d); [apply IH; [exact H|lia]|discriminate].
Qed.

Lemma includes_prefix (t s : string) : includes t s = false -> String.prefix t s = false.
Proof. destruct s; simpl; intros H; apply orb_false_iff in H as [H _]; exact H. Qed.

Lemma includes_tail (t : string) (c : ascii) (s : string) :
  includes t (String c s) = false -> includes t s = false.
Proof. simpl. intros H. apply orb_false_iff in H as [_ H]. exact H. Qed.

(** A literal none of whose proper suffixes is a prefix of it cannot
    start inside a text free of it and end in an occurrence of itself. *)
Lemma no_border_start (p x y : string) :
  no_border p = true -> is_emptyb x = false -> includes p x = false ->
  String.prefix p (x ++ p ++ y) = false.
Proof.
  intros Hb Hx Hinc. destruct (String.prefix p (x ++ p ++ y)) eqn:H; [|reflexivity].
  exfalso. destruct (Nat.le_gt_cases (String.length p) (String.length x)) as [Hl|Hl].
  - pose proof (prefix_app_l _ _ _ H Hl) as Hp.
    rewrite (includes_prefix _ _ Hinc) in Hp. discriminate.
  - pose proof (prefix_app_r _ _ _ H ltac:(lia)) as Hp.
    apply (prefix_app_l _ p y) in Hp.
    2:{ clear. revert p. induction (String.length x) as [|n IH]; intros p; [simpl; lia|].
        destruct p; simpl; [lia|specialize (IH p); lia]. }
    unfold no_border in Hb. rewrite forallb_forall in Hb.
    specialize (Hb (String.length x)). rewrite Hp in Hb.
    assert (In (String.length x) (seq 1 (String.length p - 1))).
    { assert (1 <= String.length x) by (destruct x; [discriminate|simpl; lia]).
      apply in_seq. lia. }
    specialize (Hb H0). discriminate.
Qed.

Lemma replace_scan_skip (m : string -> option (nat * string)) (x rest : string) :
  replace_scan m (String.length x) (x ++ rest) = replace_scan m 0 rest.
Proof. induction x as [|c x IH]; [reflexivity|]. exact IH. Qed.

Lemma replace_scan_match (m : string -> option (nat * string)) (x rest rep : string) :
  is_emptyb x = false -> m (x ++ rest) = Some (String.length x, rep) ->
  replace_scan m 0 (x ++ rest) = rep ++ replace_scan m 0 rest.
Proof.
  destruct x as [|c x]; [discriminate|]. intros _ Hm.
  rewrite append_cons. cbn [replace_scan]. rewrite <- append_cons, Hm.
  simpl String.length. rewrite Nat.sub_succ, Nat.sub_0_r, replace_scan_skip. reflexivity.
Qed.

Lemma replace_scan_none (m : string -> option (nat * string)) (p s : string) :
  (forall s', String.prefix p s' = false -> m s' = None) ->
  includes p s = false -> replace_scan m 0 s = s.
Proof.
  intros Hm. induction s as [|c s IH]; intros Hinc; [reflexivity|].
  cbn [replace_scan]. rewrite (Hm _ (includes_prefix _ _ Hinc)).
  rewrite (IH (includes_tail _ _ _ Hinc)). reflexivity.
Qed.

Lemma replace_scan_gap (m : string -> option (nat * string)) (p gap y : string) :
  (forall s', String.prefix p s' = false -> m s' = None) -> no_border p = true ->
  includes p gap = false ->
  replace_scan m 0 (gap ++ p ++ y) = gap ++ replace_scan m 0 (p ++ y).
Proof.
  intros Hm Hb. induction gap as [|c g IH]; intros Hinc; [reflexivity|].
  rewrite append_cons. cbn [replace_scan]. rewrite <- append_cons.
  rewrite (Hm _ (no_border_start p (String c g) y Hb eq_refl Hinc)).
  rewrite (IH (includes_tail _ _ _ Hinc)). reflexivity.
Qed.

Lemma strip_prefix_none (p s : string) : String.prefix p s = false -> strip_prefix p s = None.
Proof.
  destruct (strip_prefix p s) eqn:E; [|reflexivity].
  rewrite (strip_prefix_prefix _ _ _ E). discriminate.
Qed.

Lemma strip_prefix_app_same (p s : string) : strip_prefix p (p ++ s) = Some s.
Proof.
  induction p as [|a p IH]; [reflexivity|]. simpl. rewrite Ascii.eqb_refl. exact IH.
Qed.

Lemma span_app_stop (p : ascii -> bool) (a b : string) :
  str_forallb p a = true -> (match b with String c _ => p c = false | EmptyString => True end) ->
  span p (a ++ b) = (a, b).
Proof.
  intros Ha Hb. induction a as [|c a IH].
  - destruct b as [|c b]; simpl; [reflexivity|]. rewrite Hb. reflexivity.
  - simpl in Ha. apply andb_prop in Ha as [Hc Ha].
    rewrite append_cons. simpl. rewrite Hc, (IH Ha). reflexivity.
Qed.

Lemma plus1_app_stop (p : ascii -> bool) (a b : string) :
  is_emptyb a = false -> str_forallb p a = true ->
  (match b with String c _ => p c = false | EmptyString => True end) ->
  plus1 p (a ++ b) = Some (a, b).
Proof.
  intros He Ha Hb. unfold plus1. rewrite (span_app_stop p a b Ha Hb), He. reflexivity.
Qed.

Lemma lazy_to_brace_body (body rest : string) :
  is_emptyb body = false -> str_forallb body_char body = true ->
  lazy_to_brace (body ++ "{" ++ rest) = Some (body ++ "{").
Proof.
  induction body as [|c body IH]; [discriminate|]. intros _ Hb.
  simpl in Hb. apply andb_prop in Hb as [Hc Hb]. unfold body_char in Hc.
  apply andb_prop in Hc as [Hc1 Hc2]. apply negb_true_iff in Hc1, Hc2.
  rewrite append_cons. cbn [lazy_to_brace]. rewrite Hc2.
  destruct body as [|d body].
  - reflexivity.
  - pose proof Hb as Hb'. simpl in Hb'. apply andb_prop in Hb' as [Hd _]. unfold body_char in Hd.
    apply andb_prop in Hd as [Hd _]. apply negb_true_iff in Hd.
    change ((String d body ++ "{" ++ rest)) with (String d (body ++ "{" ++ rest)).
    cbv beta iota. rewrite Hd. change (String d (body ++ "{" ++ rest)) with (String d body ++ "{" ++ rest).
    rewrite (IH eq_refl Hb). reflexivity.
Qed.

Lemma sapp_assoc (a b c : string) : (a ++ b) ++ c = a ++ b ++ c.
Proof. induction a as [|x a IH]; [reflexivity|]. rewrite !append_cons, IH. reflexivity. Qed.

Lemma unsafe_fn_at_block (name body rest : string) :
  is_emptyb name = false -> str_forallb is_word name = true ->
  is_emptyb body = false -> str_forallb body_char body = true ->
  unsafe_fn_at (fn_block name body ++ rest)
  = Some (String.length (fn_block name body), rewrite_block (fn_block name body) name).
Proof.
  intros Hn Hw Hb Hc. unfold fn_block. rewrite !sapp_assoc.
  unfold unsafe_fn_at. rewrite strip_prefix_app_same. cbn [mbind option_bind].
  rewrite (plus1_app_stop is_word name _ Hn Hw) by reflexivity. cbn [mbind option_bind].
  change ("(" ++ body ++ "{" ++ rest) with (String "(" (body ++ "{" ++ rest)).
  cbn [strip_prefix]. rewrite Ascii.eqb_refl. cbn [strip_prefix mbind option_bind].
  rewrite (lazy_to_brace_body body rest Hb Hc). cbn [mbind option_bind].
  rewrite <- !sapp_assoc. reflexivity.
Qed.

Lemma unsafe_fn_at_none (s : string) : String.prefix "unsafe fn " s = false -> unsafe_fn_at s = None.
Proof. intros H. unfold unsafe_fn_at. rewrite strip_prefix_none by exact H. reflexivity. Qed.

(** X14: An input with no [unsafe fn ] is left unchanged by the rewriter. *)
Theorem rewrite_handles_no_block (input : string) (H : includes "unsafe fn " input = false) :
  rewrite_handles input = input.
Proof. exact (replace_scan_none _ _ input unsafe_fn_at_none H). Qed.

Lemma rewrite_handles_no_block_witness :
  rewrite_handles ("fn f() {}" ++ nl) = "fn f() {}" ++ nl.
Proof. apply rewrite_handles_no_block. vm_compute. reflexivity. Defined.

(** X15: The rewriter keeps the text before the first [unsafe fn name(...{]
    header, replaces that header by the callback result for it, and goes on
    with the rest: rewriting composes over the blocks of the input. *)
Theorem rewrite_handles_block (gap name body rest : string)
  (Hgap : includes "unsafe fn " gap = false)
  (Hn : is_emptyb name = false) (Hw : str_forallb is_word name = true)
  (Hb : is_emptyb body = false) (Hc : str_forallb body_char body = true) :
  rewrite_handles (gap ++ fn_block name body ++ rest)
  = gap ++ rewrite_block (fn_block name body) name ++ rewrite_handles rest.
Proof.
  unfold rewrite_handles.
  replace (fn_block name body ++ rest)
    with ("unsafe fn " ++ (name ++ "(" ++ body ++ "{" ++ rest))
    by (unfold fn_block; rewrite !sapp_assoc; reflexivity).
  rewrite (replace_scan_gap _ _ gap _ unsafe_fn_at_none) by (vm_compute; reflexivity || exact Hgap).
  f_equal.
  replace ("unsafe fn " ++ (name ++ "(" ++ body ++ "{" ++ rest))
    with (fn_block name body ++ rest)
    by (unfold fn_block; rewrite !sapp_assoc; reflexivity).
  apply replace_scan_match; [reflexivity|].
  apply unsafe_fn_at_block; assumption.
Qed.

Lemma rewrite_handles_block_witness :
  rewrite_handles (("// generated" ++ nl)
                   ++ fn_block "get_info" "handle: *mut hexchat_plugin, id: i32) " ++ "}")
  = ("// generated" ++ nl)
    ++ rewrite_block (fn_block "get_info" "handle: *mut hexchat_plugin, id: i32) ") "get_info"
    ++ rewrite_handles "}".
Proof.
  assert (Hg : includes "unsafe fn " ("// generated" ++ nl) = false) by (vm_compute; reflexivity).
  assert (Hn : is_emptyb "get_info" = false) by reflexivity.
  assert (Hw : str_forallb is_word "get_info" = true) by (vm_compute; reflexivity).
  assert (Hb : is_emptyb "handle: *mut hexchat_plugin, id: i32) " = false) by reflexivity.
  assert (Hc : str_forallb body_char "handle: *mut hexchat_plugin, id: i32) " = true)
    by (vm_compute; reflexivity).
  exact (rewrite_handles_block _ _ _ "}" Hg Hn Hw Hb Hc).
Defined.

Lemma ph_at_none (s : string) : String.prefix ph_decl s = false -> ph_at s = None.
Proof. intros H. unfold ph_at. rewrite strip_prefix_none by exact H. reflexivity. Qed.

(** X16: When a block does not contain [ph: *mut hexchat_plugin,], the
    callback keeps the block as it is and appends the forwarding call. *)
Theorem rewrite_block_no_ph (fullMatch name : string)
  (H : includes ph_decl fullMatch = false) :
  rewrite_block fullMatch name
  = fullMatch ++ forwarding name (String.concat "," (args_of fullMatch)).
Proof.
  unfold rewrite_block. rewrite (replace_scan_none _ _ fullMatch ph_at_none H). reflexivity.
Qed.

Lemma rewrite_block_no_ph_witness :
  rewrite_block (fn_block "f" "x: i32) ") "f"
  = fn_block "f" "x: i32) " ++ forwarding "f" (String.concat "," (args_of (fn_block "f" "x: i32) "))).
Proof.
  assert (H : includes ph_decl (fn_block "f" "x: i32) ") = false) by (vm_compute; reflexivity).
  exact (rewrite_block_no_ph _ "f" H).
Defined.

(** X17: The handle parameter [ph: *mut hexchat_plugin,] is deleted from a
    block together with one newline right after it, if there is one, and the
    text around it is kept. *)
Theorem ph_removal (a b : string) (Ha : includes ph_decl a = false) :
  replace_scan ph_at 0 (a ++ ph_decl ++ nl ++ b) = a ++ replace_scan ph_at 0 b /\
  ((match b with String c _ => Ascii.eqb c NL = false | EmptyString => True end) ->
   replace_scan ph_at 0 (a ++ ph_decl ++ b) = a ++ replace_scan ph_at 0 b).
Proof.
  assert (Hnb : no_border ph_decl = true) by (vm_compute; reflexivity).
  split.
  - rewrite (replace_scan_gap _ _ a _ ph_at_none Hnb Ha). f_equal.
  - intros Hb. rewrite (replace_scan_gap _ _ a _ ph_at_none Hnb Ha). f_equal.
    rewrite (replace_scan_match ph_at ph_decl b ""); [reflexivity..|].
    unfold ph_at. rewrite strip_prefix_app_same. cbn [mbind option_bind].
    destruct b as [|c b]; [reflexivity|]. cbv beta iota. rewrite Hb. reflexivity.
Qed.

Lemma ph_removal_witness :
  replace_scan ph_at 0 ("unsafe fn f(" ++ ph_decl ++ nl ++ " x: i32) {")
  = "unsafe fn f(" ++ replace_scan ph_at 0 " x: i32) {".
Proof.
  assert (H : includes ph_decl "unsafe fn f(" = false) by (vm_compute; reflexivity).
  exact (proj1 (ph_removal _ " x: i32) {" H)).
Defined.

Lemma slength_app (a b : string) : String.length (a ++ b) = String.length a + String.length b.
Proof. induction a as [|c a IH]; [reflexivity|]. simpl. rewrite IH. reflexivity. Qed.

Lemma search_skip {A} (p : ascii -> bool) (m : string -> option A) (x y : string) :
  (forall c r, p c = true -> m (String c r) = None) ->
  str_forallb p x = true -> search m (x ++ y) = search m y.
Proof.
  intros Hm. induction x as [|c x IH]; [reflexivity|].
  intros H. simpl in H. apply andb_prop in H as [Hc Hr].
  rewrite append_cons. cbn [search]. rewrite Hm by exact Hc. apply IH, Hr.
Qed.

Lemma scan_skip_prefix (p : ascii -> bool) (m : string -> option (nat * string)) (x y : string) :
  (forall c r, p c = true -> m (String c r) = None) ->
  str_forallb p x = true -> scan m 0 (x ++ y) = scan m 0 y.
Proof.
  intros Hm. induction x as [|c x IH]; [reflexivity|].
  intros H. simpl in H. apply andb_prop in H as [Hc Hr].
  rewrite append_cons. cbn [scan]. rewrite Hm by exact Hc. apply IH, Hr.
Qed.

Lemma scan_skip (m : string -> option (nat * string)) (x rest : string) :
  scan m (String.length x) (x ++ rest) = scan m 0 rest.
Proof. induction x as [|c x IH]; [reflexivity|]. exact IH. Qed.

Lemma scan_match (m : string -> option (nat * string)) (x rest cap : string) :
  is_emptyb x = false -> m (x ++ rest) = Some (String.length x, cap) ->
  scan m 0 (x ++ rest) = cap :: scan m 0 rest.
Proof.
  destruct x as [|c x]; [discriminate|]. intros _ Hm.
  rewrite append_cons. cbn [scan]. rewrite <- append_cons, Hm.
  simpl String.length. rewrite Nat.sub_succ, Nat.sub_0_r, scan_skip. reflexivity.
Qed.

Lemma word_not_space (c : ascii) : is_word c = true -> is_space c = false.
Proof. destruct c as [[] [] [] [] [] [] [] []]; vm_compute; congruence. Qed.

Lemma nonl_arg_at (d : string) (c : ascii) (r : string) :
  (match d with String a _ => a = NL | EmptyString => False end) ->
  negb (Ascii.eqb NL c) = true -> arg_at d (String c r) = None.
Proof.
  destruct d as [|a d]; [contradiction|]. intros -> Hc. unfold arg_at.
  cbn [strip_prefix].
  replace (Ascii.eqb NL c) with false by (destruct (Ascii.eqb NL c); [discriminate Hc|reflexivity]).
  reflexivity.
Qed.

Lemma nonl_depth_at (c : ascii) (r : string) :
  negb (Ascii.eqb NL c) = true -> depth_at (String c r) = None.
Proof.
  intros Hc. unfold depth_at. rewrite Ascii.eqb_sym.
  replace (Ascii.eqb NL c) with false by (destruct (Ascii.eqb NL c); [discriminate Hc|reflexivity]).
  reflexivity.
Qed.

Lemma span_app_snd (p : ascii -> bool) (a b : string) :
  str_forallb p a = true -> (span p (a ++ b)).2 = (span p b).2.
Proof.
  induction a as [|c a IH]; [reflexivity|]. intros H. simpl in H.
  apply andb_prop in H as [Hc Ha]. rewrite append_cons. cbn [span]. rewrite Hc.
  rewrite <- (IH Ha). destruct (span p (a ++ b)) as [u v]. reflexivity.
Qed.

Lemma plus1_word_stop (r : string) :
  (match (span is_space r).2 with String c _ => is_word c = false | EmptyString => True end) ->
  plus1 is_word r = None.
Proof.
  unfold plus1. destruct r as [|c r]; [reflexivity|]. simpl.
  destruct (is_space c) eqn:Hs.
  - destruct (is_word c) eqn:Hw; [rewrite (word_not_space c Hw) in Hs; discriminate|].
    reflexivity.
  - intros Hw. rewrite Hw. reflexivity.
Qed.

Lemma word_stop_colon (p rest : string) :
  is_emptyb p = false -> str_forallb is_word p = true ->
  plus1 is_word (p ++ ":" ++ rest) = Some (p, ":" ++ rest).
Proof. intros He Hw. apply plus1_app_stop; [exact He|exact Hw|reflexivity]. Qed.

Lemma scan_params (ind tail : string) (ps : list (string * string)) :
  Forall param_ok ps ->
  scan (arg_at (nl ++ ind)) 0 (param_lines ind ps ++ tail)
  = (map fst ps ++ scan (arg_at (nl ++ ind)) 0 tail)%list.
Proof.
  induction 1 as [|[p t] ps (Hpe & Hpw & Ht) _ IH]; [reflexivity|].
  cbn [param_lines map fst app]. cbn [fst snd] in Hpe, Hpw, Ht.
  replace ((nl ++ ind ++ p ++ ":" ++ t ++ param_lines ind ps) ++ tail)
    with ((nl ++ ind ++ p ++ ":") ++ (t ++ param_lines ind ps ++ tail))
    by (rewrite !sapp_assoc; reflexivity).
  rewrite (scan_match _ _ _ p); [|reflexivity|].
  - f_equal. rewrite (scan_skip_prefix _ _ t _ (fun c r H => nonl_arg_at (nl ++ ind) c r eq_refl H) Ht).
    exact IH.
  - unfold arg_at. rewrite !sapp_assoc.
    rewrite <- (sapp_assoc nl ind), strip_prefix_app_same. cbn [mbind option_bind].
    rewrite word_stop_colon by assumption. cbn [mbind option_bind].
    change (":" ++ ?r) with (String ":" r). cbn [strip_prefix]. rewrite Ascii.eqb_refl.
    cbn [mbind option_bind]. rewrite !slength_app. simpl. f_equal. f_equal. lia.
Qed.

Lemma sapp_nil_r (s : string) : s ++ EmptyString = s.
Proof. induction s as [|c s IH]; [reflexivity|]. rewrite append_cons, IH. reflexivity. Qed.

Lemma search_hit {A} (m : string -> option A) (s : string) (a : A) :
  m s = Some a -> search m s = Some a.
Proof. intros H. destruct s; simpl; rewrite H; reflexivity. Qed.

(** X18: For a header with one parameter per line at a common indentation,
    the forwarded arguments are the names of all parameters but the first,
    in order, and the callback appends the forwarding call with them to the
    block without the handle parameter. *)
Theorem multiline_block_args (name ind tail p0 t0 : string) (ps : list (string * string))
  (Hname : str_forallb is_word name = true) (Hind : indent_ok ind)
  (Hps : Forall param_ok ((p0, t0) :: ps))
  (Htail : nonl tail = true \/
           exists close, tail = nl ++ close /\ nonl close = true /\
             match (span is_space close).2 with
             | String c _ => is_word c = false | EmptyString => True end) :
  let fullMatch := "unsafe fn " ++ name ++ "(" ++ param_lines ind ((p0, t0) :: ps) ++ tail in
  args_of fullMatch = map fst ps /\
  rewrite_block fullMatch name
  = replace_scan ph_at 0 fullMatch ++ forwarding name (String.concat "," (map fst ps)).
Proof.
  intros fullMatch.
  destruct Hind as [Hie Hisp].
  assert (Hx : nonl ("unsafe fn " ++ name ++ "(") = true).
  { unfold nonl. rewrite !str_forallb_app. fold (nonl name).
    replace (nonl name) with true; [reflexivity|]. symmetry.
    eapply str_forallb_impl; [|exact Hname]. intros c Hc.
    destruct (Ascii.eqb_spec NL c) as [<-|]; [discriminate Hc|reflexivity]. }
  assert (Hsplit : fullMatch = ("unsafe fn " ++ name ++ "(") ++ (param_lines ind ((p0, t0) :: ps) ++ tail))
    by (unfold fullMatch; rewrite !sapp_assoc; reflexivity).
  inversion Hps as [|? ? (Hp0e & Hp0w & Ht0) _]; subst. cbn [fst snd] in Hp0e, Hp0w, Ht0.
  assert (Hdepth : firstArgDepth fullMatch = nl ++ ind).
  { unfold firstArgDepth. rewrite Hsplit.
    rewrite (search_skip _ _ _ _ (fun c r H => nonl_depth_at c r H) Hx).
    cbn [param_lines]. rewrite !sapp_assoc.
    change (nl ++ ?r) with (String NL r).
    rewrite (search_hit _ _ (nl ++ ind)); [reflexivity|].
    unfold depth_at. rewrite Ascii.eqb_refl.
    rewrite (plus1_app_stop is_space ind); [|exact Hie| |].
    - cbn [mbind option_bind]. rewrite word_stop_colon by assumption.
      cbn [mbind option_bind]. reflexivity.
    - eapply str_forallb_impl; [|exact Hisp]. intros c Hc. apply andb_prop in Hc as [Hc _]. exact Hc.
    - destruct p0 as [|c p0]; [discriminate|]. simpl in Hp0w. apply andb_prop in Hp0w as [Hc _].
      rewrite append_cons. apply word_not_space, Hc. }
  assert (Hargs : args_of fullMatch = map fst ps).
  { unfold args_of. rewrite Hdepth, Hsplit.
    rewrite (scan_skip_prefix _ _ _ _ (fun c r H => nonl_arg_at (nl ++ ind) c r eq_refl H) Hx).
    rewrite scan_params by exact Hps.
    replace (scan (arg_at (nl ++ ind)) 0 tail) with (@nil string).
    { cbn [map fst app]. rewrite app_nil_r. reflexivity. }
    symmetry. destruct Htail as [Ht|(close & -> & Hc & Hw)].
    - rewrite <- (sapp_nil_r tail).
      rewrite (scan_skip_prefix _ _ _ _ (fun c r H => nonl_arg_at (nl ++ ind) c r eq_refl H) Ht).
      reflexivity.
    - change (nl ++ close) with (String NL close). cbn [scan].
      replace (arg_at (nl ++ ind) (String NL close)) with (@None (nat * string)).
      + rewrite <- (sapp_nil_r close).
        rewrite (scan_skip_prefix _ _ _ _ (fun c r H => nonl_arg_at (nl ++ ind) c r eq_refl H) Hc).
        reflexivity.
      + symmetry. unfold arg_at. change (nl ++ ind) with (String NL ind).
        cbn [strip_prefix]. rewrite Ascii.eqb_refl.
        destruct (strip_prefix ind close) as [r|] eqn:Hs; [|reflexivity].
        cbn [mbind option_bind]. apply strip_prefix_app in Hs. subst close.
        rewrite plus1_word_stop; [reflexivity|].
        rewrite <- (span_app_snd is_space ind r); [exact Hw|].
        eapply str_forallb_impl; [|exact Hisp]. intros c Hc'. apply andb_prop in Hc' as [Hc' _]. exact Hc'. }
  split; [exact Hargs|]. unfold rewrite_block. rewrite Hargs. reflexivity.
Qed.

Lemma multiline_block_args_witness :
  args_of ("unsafe fn " ++ "get_prefs" ++ "("
           ++ param_lines (tab ++ tab) [("ph", " *mut hexchat_plugin,"); ("name", " *const c_char,")]
           ++ nl ++ tab ++ ") -> c_int {")
  = ["name"].
Proof.
  assert (Hn : str_forallb is_word "get_prefs" = true) by (vm_compute; reflexivity).
  assert (Hi : indent_ok (tab ++ tab)) by (split; vm_compute; reflexivity).
  assert (Hp : Forall param_ok [("ph", " *mut hexchat_plugin,"); ("name", " *const c_char,")]).
  { constructor; [split; [|split]; vm_compute; reflexivity|].
    constructor; [split; [|split]; vm_compute; reflexivity|constructor]. }
  assert (Ht : nonl (nl ++ tab ++ ") -> c_int {") = true \/
               exists close, nl ++ tab ++ ") -> c_int {" = nl ++ close /\ nonl close = true /\
                 match (span is_space close).2 with
                 | String c _ => is_word c = false | EmptyString => True end).
  { right. exists (tab ++ ") -> c_int {"). split; [reflexivity|]. split; vm_compute; reflexivity. }
  exact (proj1 (multiline_block_args _ _ _ _ _ _ Hn Hi Hp Ht)).
Defined.

End RewriteExtras.
